(** * Payment validation and settlement services (UsdcService / EthService)

    A shallow embedding of the two chain services of the ticket backend:
    the fixed-point unit conversion ([toUnit6], [fromUnit6], [toWei],
    [fromWei]), the bounded key-derivation scan
    ([resolveSignerForAddress]), the two incoming-transfer validators
    ([validateIncomingTransfer]) and the sweep ([sweepToPayout]).

    JavaScript strings are modelled as [string] over code units below 256
    (the Latin-1 range); on that range [toLowerCase], [trim] and the
    [BigInt] string grammar below are the ECMAScript ones.  A [bigint] is a
    [Z].  Block numbers and confirmation counts are JavaScript numbers that
    hold integers far below 2^53; they are modelled as [Z]. *)

From Stdlib Require Import ZArith List String Ascii Bool Lia.
Import ListNotations.

Local Open Scope string_scope.
Local Open Scope Z_scope.

(** ** Results of fallible code *)

Inductive Exn : Type :=
| Error (msg : string)        (* [throw new Error(msg)] *)
| SyntaxError (what : string) (* raised by [BigInt] on a malformed literal *)
| LibraryError (what : string). (* raised inside the ethers library *)

Inductive Res (A : Type) : Type :=
| Return (a : A)
| Throw (e : Exn).

Arguments Return {A} a.
Arguments Throw {A} e.

Definition bindRes {A B} (r : Res A) (k : A -> Res B) : Res B :=
  match r with
  | Return a => k a
  | Throw e => Throw e
  end.

Declare Scope res_scope.
Delimit Scope res_scope with res.
Notation "x <- r ;; k" := (bindRes r (fun x => k))
  (at level 61, r at next level, right associativity) : res_scope.

(** ** The JavaScript string primitives the services use *)

Module JS.

Definition code (c : ascii) : Z := Z.of_N (N_of_ascii c).
Definition chr (n : Z) : ascii := ascii_of_N (Z.to_N n).

(** [String.prototype.toLowerCase] on code units below 256. *)
Definition lowerChar (c : ascii) : ascii :=
  let n := code c in
  if ((65 <=? n) && (n <=? 90))
     || ((192 <=? n) && (n <=? 222) && negb (n =? 215))
  then chr (n + 32) else c.

Fixpoint toLowerCase (s : string) : string :=
  match s with
  | EmptyString => EmptyString
  | String c r => String (lowerChar c) (toLowerCase r)
  end.

(** WhiteSpace and LineTerminator code units below 256. *)
Definition isWhite (c : ascii) : bool :=
  let n := code c in
  ((9 <=? n) && (n <=? 13)) || (n =? 32) || (n =? 160).

Fixpoint trimStart (s : string) : string :=
  match s with
  | EmptyString => EmptyString
  | String c r => if isWhite c then trimStart r else s
  end.

Fixpoint trimEnd (s : string) : string :=
  match s with
  | EmptyString => EmptyString
  | String c r =>
      match trimEnd r with
      | EmptyString => if isWhite c then EmptyString else String c EmptyString
      | r' => String c r'
      end
  end.

Definition trim (s : string) : string := trimEnd (trimStart s).

(** [s.split(sep)] for a one-character separator; the array is never
    empty, so it is built as a head and a tail. *)
Fixpoint splitParts (sep : ascii) (s : string) : string * list string :=
  match s with
  | EmptyString => (EmptyString, [])
  | String c r =>
      let '(h, t) := splitParts sep r in
      if Ascii.eqb c sep then (EmptyString, h :: t) else (String c h, t)
  end.

Definition split (sep : ascii) (s : string) : list string :=
  let '(h, t) := splitParts sep s in h :: t.

Fixpoint repeatChar (n : nat) (c : ascii) : string :=
  match n with
  | O => EmptyString
  | S k => String c (repeatChar k c)
  end.

(** [s.padEnd(n, c)] and [s.padStart(n, c)] with a one-character filler. *)
Definition padEnd (n : nat) (c : ascii) (s : string) : string :=
  s ++ repeatChar (n - String.length s) c.

Definition padStart (n : nat) (c : ascii) (s : string) : string :=
  repeatChar (n - String.length s) c ++ s.

(** [s.slice(a, b)] for literal bounds [0 <= a <= b], and [s.slice(a)]. *)
Definition slice (a b : nat) (s : string) : string := substring a (b - a) s.

Fixpoint sliceFrom (a : nat) (s : string) : string :=
  match a, s with
  | O, _ => s
  | S k, EmptyString => EmptyString
  | S k, String _ r => sliceFrom k r
  end.

Definition startsWith (p s : string) : bool := String.prefix p s.

(** Truthiness of a string: [""] is the only falsy one. *)
Definition truthy (s : string) : bool :=
  match s with EmptyString => false | _ => true end.

(** [s || d] *)
Definition orElse (s d : string) : string := if truthy s then s else d.

(** *** [BigInt(string)]: the StringIntegerLiteral grammar *)

Definition digitVal (c : ascii) : option Z :=
  let n := code c in
  if (48 <=? n) && (n <=? 57) then Some (n - 48)
  else if (97 <=? n) && (n <=? 102) then Some (n - 87)
  else if (65 <=? n) && (n <=? 70) then Some (n - 55)
  else None.

(** Horner evaluation of a digit string; [None] on a character that is not
    a digit of the radix. *)
Fixpoint parseDigits (radix : Z) (s : string) (acc : Z) : option Z :=
  match s with
  | EmptyString => Some acc
  | String c r =>
      match digitVal c with
      | Some d => if d <? radix then parseDigits radix r (acc * radix + d) else None
      | None => None
      end
  end.

(** One or more digits of the radix. *)
Definition parseNat (radix : Z) (s : string) : option Z :=
  match s with
  | EmptyString => None
  | _ => parseDigits radix s 0
  end.

Definition isChar (c : ascii) (a b : string) : bool :=
  match a, b with
  | String x EmptyString, String y EmptyString => Ascii.eqb c x || Ascii.eqb c y
  | _, _ => false
  end.

Definition StringToBigInt (s : string) : option Z :=
  match trim s with
  | EmptyString => Some 0
  | String c r =>
      if Ascii.eqb c "+" then parseNat 10 r
      else if Ascii.eqb c "-" then option_map Z.opp (parseNat 10 r)
      else if Ascii.eqb c "0" then
        match r with
        | String k r' =>
            if isChar k "x" "X" then parseNat 16 r'
            else if isChar k "o" "O" then parseNat 8 r'
            else if isChar k "b" "B" then parseNat 2 r'
            else parseNat 10 (String c r)
        | EmptyString => Some 0
        end
      else parseNat 10 (String c r)
  end.

(** [BigInt(s)]: a SyntaxError when the string is not an integer literal. *)
Definition BigInt (s : string) : Res Z :=
  match StringToBigInt s with
  | Some z => Return z
  | None => Throw (SyntaxError s)
  end.

(** *** [bigint.toString()] *)

Definition digitChar (d : Z) : ascii := chr (48 + d).

Fixpoint decDigits (fuel : nat) (n : Z) : string :=
  match fuel with
  | O => EmptyString
  | S f =>
      if n <? 10 then String (digitChar n) EmptyString
      else decDigits f (n / 10) ++ String (digitChar (n mod 10)) EmptyString
  end.

Definition natToString (n : Z) : string :=
  decDigits (S (Z.to_nat (Z.log2 n))) n.

Definition bigintToString (z : Z) : string :=
  match z with
  | Z0 => "0"
  | Zpos _ => natToString z
  | Zneg p => String "-" (natToString (Zpos p))
  end.

(** *** [parseInt(string)] without a radix

    The result is a number; [None] stands for NaN.  The value is exact below
    2^53, and the sign of a zero result is not kept. *)

Fixpoint digitPrefix (radix : Z) (s : string) : string :=
  match s with
  | EmptyString => EmptyString
  | String c r =>
      match digitVal c with
      | Some d => if d <? radix then String c (digitPrefix radix r) else EmptyString
      | None => EmptyString
      end
  end.

Definition parseInt (s : string) : option Z :=
  let s0 := trimStart s in
  let '(sign, s1) :=
    match s0 with
    | String c r =>
        if Ascii.eqb c "-" then (-1, r)
        else if Ascii.eqb c "+" then (1, r)
        else (1, s0)
    | EmptyString => (1, s0)
    end in
  let '(radix, s2) :=
    match s1 with
    | String a (String b r) =>
        if Ascii.eqb a "0" && isChar b "x" "X" then (16, r) else (10, s1)
    | _ => (10, s1)
    end in
  match digitPrefix radix s2 with
  | EmptyString => None
  | z => option_map (Z.mul sign) (parseDigits radix z 0)
  end.

End JS.

(** ** UnitConverter: [toUnit6] / [fromUnit6] and [toWei] / [fromWei]

    The two services carry the same code up to the literal precision (6 and
    18); [toUnits] and [fromUnits] are that code with the literal as a
    parameter.  A [number] argument is first rendered by
    [Number.prototype.toString]; the functions below start from the
    resulting string [n]. *)

Definition toUnits (decimals : nat) (n : string) : Res Z :=
  let parts := JS.split "." n in
  let intPart := hd EmptyString parts in
  let fracPartRaw := nth_error parts 1 in
  let frac :=
    JS.slice 0 decimals
      (JS.padEnd decimals "0"
         (match fracPartRaw with Some f => JS.orElse f "" | None => "" end)) in
  (i <- JS.BigInt (JS.orElse intPart "0") ;;
   f <- JS.BigInt (JS.orElse frac "0") ;;
   Return (i * 10 ^ Z.of_nat decimals + f))%res.

Definition fromUnits (decimals : nat) (amount : Z) : string :=
  let intPart := Z.quot amount (10 ^ Z.of_nat decimals) in
  let frac := Z.rem amount (10 ^ Z.of_nat decimals) in
  JS.bigintToString intPart ++ "." ++
  JS.padStart decimals "0" (JS.bigintToString frac).

Definition toUnit6 : string -> Res Z := toUnits 6.
Definition fromUnit6 : Z -> string := fromUnits 6.
Definition toWei : string -> Res Z := toUnits 18.
Definition fromWei : Z -> string := fromUnits 18.

(** ** Chain data as the ethers library hands it to the services *)

Inductive SupportedChain : Type := OpSepolia | OpMainnet.

Definition chainName (c : SupportedChain) : string :=
  match c with OpSepolia => "op-sepolia" | OpMainnet => "op-mainnet" end.

(** [process.env]: every read in the services is [process.env.X || ''], so
    an unset variable and an empty one are both the empty string. *)
Record Env : Type := {
  OP_RPC_URL : string;
  OP_MAINNET_RPC_URL : string;
  USDC_TOKEN_ADDRESS_OP_SEPOLIA : string;
  USDC_TOKEN_ADDRESS_OP_MAINNET : string;
  DEPOSIT_WALLET_ADDRESS : string;
  SPLIT_WALLET_ADDRESS : string;
  PAYOUT_WALLET_ADDRESS : string;
  USDC_MNEMONIC : string;
  CRYPTO_CHAIN : string;
  BLOCKED_ETH_ADDRESSES : string
}.

Record Log : Type := {
  log_address : string;
  log_topics : list string;
  log_data : string
}.

(** [status] is [null | number]; [blockNumber] may be absent ([??]). *)
Record TransactionReceipt : Type := {
  rc_status : option Z;
  rc_blockNumber : option Z;
  rc_logs : list Log
}.

Record TransactionResponse : Type := {
  tx_to : option string;
  tx_from : string;
  tx_data : string;
  tx_value : option Z
}.

(** What [Interface.parseLog] returns for the minimal ERC-20 ABI: the event
    name and the three arguments of [Transfer(from, to, value)]. *)
Record LogDescription : Type := {
  ld_name : string;
  ld_arg0 : string;
  ld_arg1 : string;
  ld_arg2 : Z
}.

Record JsonRpcProvider : Type := { provider_url : string }.

Record Contract : Type := {
  contract_address : string;
  contract_provider : JsonRpcProvider
}.

(** An [HDNodeWallet] connected to a provider. *)
Record Signer : Type := {
  signer_index : nat;
  signer_address : string;
  signer_provider : JsonRpcProvider
}.

(** A broadcast transfer: its hash and what [tx.wait(1)] reports
    ([rc?.status]: no receipt, or a receipt with its status). *)
Record SentTransaction : Type := {
  sent_hash : string;
  sent_receipt_status : option (option Z)
}.

(** The chain client capability (JSON-RPC connection, ABI decoder and HD
    derivation of the ethers library).  [Ledger] is the state of the
    networks; only [rpc_sendTokenTransfer] changes it. *)
Record ChainClient (Ledger : Type) : Type := {
  rpc_waitForTransaction : Ledger -> SupportedChain -> string -> option TransactionReceipt;
  rpc_getTransaction : Ledger -> SupportedChain -> string -> option TransactionResponse;
  rpc_getBlockNumber : Ledger -> SupportedChain -> Z;
  rpc_tokenBalanceOf : Ledger -> SupportedChain -> string -> string -> Z;
  rpc_sendTokenTransfer :
    Ledger -> SupportedChain -> Signer -> string -> string -> Z -> SentTransaction * Ledger;
  abi_parseLog : Log -> Res (option LogDescription);
  hd_derivePath : string -> string -> Res string
}.

Arguments rpc_waitForTransaction {Ledger} _ _ _ _.
Arguments rpc_getTransaction {Ledger} _ _ _ _.
Arguments rpc_getBlockNumber {Ledger} _ _ _.
Arguments rpc_tokenBalanceOf {Ledger} _ _ _ _ _.
Arguments rpc_sendTokenTransfer {Ledger} _ _ _ _ _ _ _.
Arguments abi_parseLog {Ledger} _ _.
Arguments hd_derivePath {Ledger} _ _ _.

(** ** The service monad: object state threaded through, exceptions *)

Definition M (W A : Type) : Type := W -> Res A * W.

Definition ret {W A} (a : A) : M W A := fun w => (Return a, w).
Definition throw {W A} (e : Exn) : M W A := fun w => (Throw e, w).
Definition bind {W A B} (m : M W A) (k : A -> M W B) : M W B :=
  fun w => match m w with
           | (Return a, w') => k a w'
           | (Throw e, w') => (Throw e, w')
           end.
Definition liftRes {W A} (r : Res A) : M W A := fun w => (r, w).
Definition gets {W A} (f : W -> A) : M W A := fun w => (Return (f w), w).

Declare Scope svc_scope.
Delimit Scope svc_scope with svc.
Notation "x <-- m ;; k" := (bind m (fun x => k))
  (at level 61, m at next level, right associativity) : svc_scope.

Definition chain_eqb (a b : SupportedChain) : bool :=
  match a, b with
  | OpSepolia, OpSepolia | OpMainnet, OpMainnet => true
  | _, _ => false
  end.

(** [map.set(k, v)] on a map keyed by the two chains. *)
Definition mapSet {V} (m : SupportedChain -> option V) (k : SupportedChain) (v : V)
  : SupportedChain -> option V :=
  fun c => if chain_eqb c k then Some v else m c.

(** The object literal every return statement of the validators builds;
    an absent property is [None]. *)
Record ValidationResult : Type := {
  ok : bool;
  reason : option string;
  txHash : option string;
  confirmations : option Z;
  amount : option Z;   (* [amount6] in UsdcService, [amountWei] in EthService *)
  sender : option string;
  recipient : option string   (* the [to] property *)
}.

Definition failure (why : string) (hash : option string) (confs : option Z)
  : ValidationResult :=
  {| ok := false; reason := Some why; txHash := hash; confirmations := confs;
     amount := None; sender := None; recipient := None |}.

Record ValidationParams : Type := {
  p_chain : SupportedChain;
  p_txHash : string;
  p_expectedAmount : Z;
  p_expectedSender : string
}.

(** ** UsdcService *)

Module UsdcService.

Record UsdcConfig : Type := {
  chainIdHex : string;
  rpcUrl : string;
  tokenAddress : string;
  depositWallet : string;
  splitWallet : string;
  payoutWallet : string;
  decimals : nat
}.

Record Matched : Type := {
  m_from : string;
  m_to : string;
  m_value : Z
}.

Section Service.

Context {Ledger : Type} (client : ChainClient Ledger) (env : Env).

(** The fields of the service object and the networks it talks to. *)
Record State : Type := {
  providers : SupportedChain -> option JsonRpcProvider;
  usdcContracts : SupportedChain -> option Contract;
  ledger : Ledger
}.

Definition mnemonic : string := USDC_MNEMONIC env.

Definition getChainConfig (chain : SupportedChain) : UsdcConfig :=
  let depositWallet := JS.toLowerCase (DEPOSIT_WALLET_ADDRESS env) in
  let splitWallet := JS.toLowerCase (SPLIT_WALLET_ADDRESS env) in
  let payoutWallet := JS.toLowerCase (PAYOUT_WALLET_ADDRESS env) in
  match chain with
  | OpSepolia =>
      {| chainIdHex := "0xaa37dc"; rpcUrl := OP_RPC_URL env;
         tokenAddress := USDC_TOKEN_ADDRESS_OP_SEPOLIA env;
         depositWallet := depositWallet; splitWallet := splitWallet;
         payoutWallet := payoutWallet; decimals := 6 |}
  | OpMainnet =>
      {| chainIdHex := "0xa"; rpcUrl := OP_MAINNET_RPC_URL env;
         tokenAddress := USDC_TOKEN_ADDRESS_OP_MAINNET env;
         depositWallet := depositWallet; splitWallet := splitWallet;
         payoutWallet := payoutWallet; decimals := 6 |}
  end.

Definition getActiveChain : SupportedChain :=
  if String.eqb (CRYPTO_CHAIN env) "op-mainnet" then OpMainnet else OpSepolia.

Definition getProvider (chain : SupportedChain) : M State JsonRpcProvider :=
  fun st =>
    match providers st chain with
    | Some p => (Return p, st)
    | None =>
        let p := {| provider_url := rpcUrl (getChainConfig chain) |} in
        (Return p,
         {| providers := mapSet (providers st) chain p;
            usdcContracts := usdcContracts st;
            ledger := ledger st |})
    end.

Definition getUsdcContract (chain : SupportedChain) : M State Contract :=
  (cached <-- gets (fun st => usdcContracts st chain) ;;
   match cached with
   | Some c => ret c
   | None =>
       p <-- getProvider chain ;;
       let c := {| contract_address := tokenAddress (getChainConfig chain);
                   contract_provider := p |} in
       fun st =>
         (Return c,
          {| providers := providers st;
             usdcContracts := mapSet (usdcContracts st) chain c;
             ledger := ledger st |})
   end)%svc.

Definition getTokenBalance (chain : SupportedChain) (address : string) : M State Z :=
  (usdc <-- getUsdcContract chain ;;
   bal <-- gets (fun st =>
             rpc_tokenBalanceOf client (ledger st) chain (contract_address usdc) address) ;;
   liftRes (JS.BigInt (JS.bigintToString bal)))%svc.

Definition derivationPath (accountIndex : nat) : string :=
  "m/44'/60'/0'/0/" ++ JS.bigintToString (Z.of_nat accountIndex).

Definition getDepositSigner (chain : SupportedChain) (accountIndex : nat) : M State Signer :=
  if negb (JS.truthy mnemonic) then throw (Error "USDC_MNEMONIC not configured")
  else
    (address <-- liftRes (hd_derivePath client mnemonic (derivationPath accountIndex)) ;;
     p <-- getProvider chain ;;
     ret {| signer_index := accountIndex; signer_address := address;
            signer_provider := p |})%svc.

(** The [for (let i = 0; i < 10; i++)] loop, from index [i] with [n]
    iterations left. *)
Fixpoint resolveLoop (chain : SupportedChain) (addrLower : string) (i n : nat)
  : M State Signer :=
  match n with
  | O => throw (Error "Mnemonic does not derive the expected wallet address")
  | S k =>
      (signer <-- getDepositSigner chain i ;;
       if String.eqb (JS.toLowerCase (signer_address signer)) addrLower
       then ret signer
       else resolveLoop chain addrLower (S i) k)%svc
  end.

Definition resolveSignerForAddress (chain : SupportedChain) (targetAddress : string)
  : M State Signer :=
  resolveLoop chain (JS.toLowerCase targetAddress) 0 10.

Definition sendTransfer (chain : SupportedChain) (usdc : Contract) (signer : Signer)
    (to : string) (value : Z) : M State SentTransaction :=
  fun st =>
    let '(tx, l') :=
      rpc_sendTokenTransfer client (ledger st) chain signer (contract_address usdc) to value in
    (Return tx,
     {| providers := providers st; usdcContracts := usdcContracts st; ledger := l' |}).

Definition sweepToPayout (chain : SupportedChain) (fromAddress : string)
  : M State (option string) :=
  let cfg := getChainConfig chain in
  (balance <-- getTokenBalance chain fromAddress ;;
   if balance =? 0 then ret None
   else
     signer <-- resolveSignerForAddress chain fromAddress ;;
     usdc <-- getUsdcContract chain ;;
     tx <-- sendTransfer chain usdc signer (payoutWallet cfg) balance ;;
     match sent_receipt_status tx with
     | Some (Some 1) => ret (Some (sent_hash tx))
     | _ => throw (Error "Sweep transfer failed")
     end)%svc.

(** The [for (const log of receipt.logs || [])] loop; a throw inside the
    [try] block is swallowed by the empty [catch]. *)
Fixpoint scanLogs (cfg : UsdcConfig) (expectedSender : string) (logs : list Log)
  : option Matched :=
  match logs with
  | [] => None
  | log :: rest =>
      if negb (JS.truthy (log_address log))
         || negb (String.eqb (JS.toLowerCase (log_address log))
                             (JS.toLowerCase (tokenAddress cfg)))
      then scanLogs cfg expectedSender rest
      else
        match abi_parseLog client log with
        | Return (Some parsed) =>
            if String.eqb (ld_name parsed) "Transfer" then
              let from := JS.toLowerCase (ld_arg0 parsed) in
              let to := JS.toLowerCase (ld_arg1 parsed) in
              match JS.BigInt (JS.bigintToString (ld_arg2 parsed)) with
              | Return value =>
                  if String.eqb to (depositWallet cfg)
                     && String.eqb from (JS.toLowerCase expectedSender)
                  then Some {| m_from := from; m_to := to; m_value := value |}
                  else scanLogs cfg expectedSender rest
              | Throw _ => scanLogs cfg expectedSender rest
              end
            else scanLogs cfg expectedSender rest
        | Return None => scanLogs cfg expectedSender rest
        | Throw _ => scanLogs cfg expectedSender rest
        end
  end.

(** The fallback on the transaction input, entered when no log matched. *)
Definition decodeTransferInput (cfg : UsdcConfig) (expectedSender : string)
    (tx : option TransactionResponse) : Res (option Matched) :=
  match tx with
  | None => Return None
  | Some tx =>
      match tx_to tx with
      | None => Return None
      | Some to =>
          if JS.truthy to
             && String.eqb (JS.toLowerCase to) (JS.toLowerCase (tokenAddress cfg))
             && JS.startsWith "0xa9059cbb" (tx_data tx)
          then
            let toEncoded := JS.slice 10 74 (tx_data tx) in
            let valEncoded := JS.slice 74 138 (tx_data tx) in
            let toAddr := "0x" ++ JS.sliceFrom 24 toEncoded in
            (val <- JS.BigInt ("0x" ++ valEncoded) ;;
             let senderLower := JS.orElse (tx_from tx) "" in
             let senderLower := JS.toLowerCase senderLower in
             if String.eqb senderLower (JS.toLowerCase expectedSender)
                && String.eqb (JS.toLowerCase toAddr) (JS.toLowerCase (depositWallet cfg))
             then Return (Some {| m_from := senderLower;
                                  m_to := JS.toLowerCase (depositWallet cfg);
                                  m_value := val |})
             else Return None)%res
          else Return None
      end
  end.

(** Steps after the receipt has been found not reverted: matching, amount
    check and confirmation check. *)
Definition matchTransfer (cfg : UsdcConfig) (params : ValidationParams)
    (receipt : TransactionReceipt) : M State (option Matched) :=
  match scanLogs cfg (p_expectedSender params) (rc_logs receipt) with
  | Some m => ret (Some m)
  | None =>
      (tx <-- gets (fun st =>
                rpc_getTransaction client (ledger st) (p_chain params) (p_txHash params)) ;;
       liftRes (decodeTransferInput cfg (p_expectedSender params) tx))%svc
  end.

Definition validateIncomingTransfer (params : ValidationParams)
  : M State ValidationResult :=
  let chain := p_chain params in
  let txHash := p_txHash params in
  let expectedAmount6 := p_expectedAmount params in
  let cfg := getChainConfig chain in
  if negb (JS.truthy (tokenAddress cfg))
  then ret (failure "Token address not configured" None None)
  else
    (provider <-- getProvider chain ;;
     receipt <-- gets (fun st => rpc_waitForTransaction client (ledger st) chain txHash) ;;
     match receipt with
     | None => ret (failure "Transaction not found" None None)
     | Some receipt =>
         if negb (match rc_status receipt with Some s => s =? 1 | None => false end)
         then ret (failure "Transaction reverted" (Some txHash) None)
         else
           usdc <-- getUsdcContract chain ;;
           matched <-- matchTransfer cfg params receipt ;;
           match matched with
           | None =>
               ret (failure "No matching USDC transfer to deposit wallet found"
                            (Some txHash) None)
           | Some matched =>
               if negb (m_value matched =? expectedAmount6)
               then ret (failure "Amount mismatch" (Some txHash) None)
               else
                 current <-- gets (fun st => rpc_getBlockNumber client (ledger st) chain) ;;
                 let confs :=
                   current - (match rc_blockNumber receipt with
                              | Some b => b | None => current end) + 1 in
                 if confs <? 1
                 then ret (failure "Not enough confirmations" (Some txHash) (Some confs))
                 else ret {| ok := true; reason := None; txHash := Some txHash;
                             confirmations := Some confs;
                             amount := Some (m_value matched);
                             sender := Some (m_from matched);
                             recipient := Some (m_to matched) |}
           end
     end)%svc.

(** [sweepAllToPayout] returns the object [{ fromDeposit }]; its one
    property is the result here. *)
Definition sweepAllToPayout (chain : SupportedChain) : M State (option string) :=
  let cfg := getChainConfig chain in
  (fromDeposit <-- sweepToPayout chain (depositWallet cfg) ;;
   ret fromDeposit)%svc.

(** The split is disabled: [{ splitTxHash: '' }]. *)
Definition splitRevenue (_chain : SupportedChain) (_amount6 : Z) : M State string :=
  ret "".

Definition payout (chain : SupportedChain) (to : string) (amount6 : Z) : M State string :=
  let cfg := getChainConfig chain in
  (signer <-- resolveSignerForAddress chain (payoutWallet cfg) ;;
   usdc <-- getUsdcContract chain ;;
   tx <-- sendTransfer chain usdc signer to amount6 ;;
   match sent_receipt_status tx with
   | Some (Some 1) => ret (sent_hash tx)
   | _ => throw (Error "Payout transfer failed")
   end)%svc.

End Service.

End UsdcService.

(** ** EthService *)

Module EthService.

Record EthConfig : Type := {
  chainIdHex : string;
  rpcUrl : string;
  depositWallet : string;
  payoutWallet : string;
  decimals : nat
}.

Section Service.

Context {Ledger : Type} (client : ChainClient Ledger) (env : Env).

Record State : Type := {
  providers : SupportedChain -> option JsonRpcProvider;
  ledger : Ledger
}.

Definition getChainConfig (chain : SupportedChain) : EthConfig :=
  let depositWallet := JS.toLowerCase (DEPOSIT_WALLET_ADDRESS env) in
  let payoutWallet := JS.toLowerCase (PAYOUT_WALLET_ADDRESS env) in
  match chain with
  | OpSepolia =>
      {| chainIdHex := "0xaa37dc"; rpcUrl := OP_RPC_URL env;
         depositWallet := depositWallet; payoutWallet := payoutWallet;
         decimals := 18 |}
  | OpMainnet =>
      {| chainIdHex := "0xa"; rpcUrl := OP_MAINNET_RPC_URL env;
         depositWallet := depositWallet; payoutWallet := payoutWallet;
         decimals := 18 |}
  end.

(** The entries of the comma-separated list, trimmed, lower-cased, empty
    ones dropped. *)
Definition blockedList : list string :=
  filter JS.truthy
    (map (fun s => JS.toLowerCase (JS.trim s))
         (JS.split "," (BLOCKED_ETH_ADDRESSES env))).

Definition isBlockedAddress (address : string) : bool :=
  let a := JS.toLowerCase (JS.orElse address "") in
  existsb (String.eqb a) blockedList.

Definition getActiveChain : SupportedChain :=
  if String.eqb (CRYPTO_CHAIN env) "op-mainnet" then OpMainnet else OpSepolia.

Definition getProvider (chain : SupportedChain) : M State JsonRpcProvider :=
  fun st =>
    match providers st chain with
    | Some p => (Return p, st)
    | None =>
        let p := {| provider_url := rpcUrl (getChainConfig chain) |} in
        (Return p,
         {| providers := mapSet (providers st) chain p; ledger := ledger st |})
    end.

Definition validateIncomingTransfer (params : ValidationParams)
  : M State ValidationResult :=
  let chain := p_chain params in
  let txHash := p_txHash params in
  let expectedAmountWei := p_expectedAmount params in
  let cfg := getChainConfig chain in
  (provider <-- getProvider chain ;;
   receipt <-- gets (fun st => rpc_waitForTransaction client (ledger st) chain txHash) ;;
   match receipt with
   | None => ret (failure "Transaction not found" None None)
   | Some receipt =>
       if negb (match rc_status receipt with Some s => s =? 1 | None => false end)
       then ret (failure "Transaction reverted" (Some txHash) None)
       else
         tx <-- gets (fun st => rpc_getTransaction client (ledger st) chain txHash) ;;
         match tx with
         | None => ret (failure "Transaction not found (tx)" (Some txHash) None)
         | Some tx =>
             let toAddr :=
               JS.toLowerCase (match tx_to tx with
                               | Some a => JS.orElse a "" | None => "" end) in
             let fromAddr := JS.toLowerCase (JS.orElse (tx_from tx) "") in
             value <-- liftRes
                         (JS.BigInt
                            (JS.orElse (match tx_value tx with
                                        | Some v => JS.bigintToString v
                                        | None => "" end) "0")) ;;
             if isBlockedAddress toAddr
             then ret (failure "Blocked recipient" (Some txHash) None)
             else if negb (String.eqb toAddr (depositWallet cfg))
             then ret (failure "Wrong recipient" (Some txHash) None)
             else if negb (String.eqb fromAddr (JS.toLowerCase (p_expectedSender params)))
             then ret (failure "Wrong sender" (Some txHash) None)
             else if negb (value =? expectedAmountWei)
             then ret (failure "Amount mismatch" (Some txHash) None)
             else
               current <-- gets (fun st => rpc_getBlockNumber client (ledger st) chain) ;;
               let confs :=
                 current - (match rc_blockNumber receipt with
                            | Some b => b | None => current end) + 1 in
               if confs <? 1
               then ret (failure "Not enough confirmations" (Some txHash) (Some confs))
               else ret {| ok := true; reason := None; txHash := Some txHash;
                           confirmations := Some confs;
                           amount := Some value;
                           sender := Some fromAddr;
                           recipient := Some toAddr |}
         end
   end)%svc.

(** The character class [[a-fA-F0-9]]. *)
Definition isHexChar (c : ascii) : bool :=
  let n := JS.code c in
  ((48 <=? n) && (n <=? 57)) || ((97 <=? n) && (n <=? 102)) || ((65 <=? n) && (n <=? 70)).

Fixpoint hexChars (s : string) : bool :=
  match s with
  | EmptyString => true
  | String c r => isHexChar c && hexChars r
  end.

(** [/^0x[a-fA-F0-9]{40}$/.test(address)] *)
Definition validateEthAddress (address : string) : bool :=
  match address with
  | String a (String b rest) =>
      Ascii.eqb a "0" && Ascii.eqb b "x"
      && Nat.eqb (String.length rest) 40 && hexChars rest
  | _ => false
  end.

End Service.

End EthService.

(** ** The amount a native-asset purchase must pay

    The bigint arithmetic of [purchaseTicketsEth]: the total in micro-dollars
    and the price of one ether in micro-dollars (both already rounded and
    turned into bigints by the handler) give the expected amount in wei.  A
    zero price makes the bigint division throw a RangeError, which the
    handler turns into its generic failure; [None] stands for it. *)

Module CryptoRoutes.

Definition expectedWei (usdScaled priceScaled : Z) : option Z :=
  let numerator := usdScaled * 10 ^ 18 in
  if priceScaled =? 0 then None
  else Some (Z.quot (numerator + priceScaled - 1) priceScaled).

End CryptoRoutes.

(** ** dateCalculations

    A [Date] is its time value in milliseconds, a [Z]; invalid dates are
    outside the model.  The clock is an argument: [now] is what
    [Date.now()] or [new Date().getTime()] returns. *)

Module DateCalculations.

Record DrawingSchedule : Type := {
  sched_dayOfWeek : option Z;   (* a number; [None] is NaN *)
  sched_time : string
}.

(** [displayOverrides]: the two properties the code reads; an absent or
    empty one is falsy. *)
Record DisplayOverrides : Type := {
  manualDate : string;
  manualTime : string
}.

Record Countdown : Type := {
  days : Z;
  hours : Z;
  minutes : Z;
  seconds : Z;
  totalMs : Z
}.

Section Calendar.

(** What [new Date(text).getDay()] evaluates to on the server. *)
Context (getDay : string -> option Z).

Definition getCurrentDrawingSchedule (displayOverrides : option DisplayOverrides)
  : DrawingSchedule :=
  match displayOverrides with
  | Some o =>
      if JS.truthy (manualDate o) && JS.truthy (manualTime o) then
        let manualDateTime := manualDate o ++ "T" ++ manualTime o ++ ":00+02:00" in
        {| sched_dayOfWeek := getDay manualDateTime; sched_time := manualTime o |}
      else {| sched_dayOfWeek := Some 5; sched_time := "21:00" |}
  | None => {| sched_dayOfWeek := Some 5; sched_time := "21:00" |}
  end.

End Calendar.

Definition dayNames : list string :=
  ["Sonntag"; "Montag"; "Dienstag"; "Mittwoch"; "Donnerstag"; "Freitag"; "Samstag"].

(** [days[dayOfWeek]] for an integer index; [None] is [undefined]. *)
Definition getDayName (dayOfWeek : Z) : option string :=
  if dayOfWeek <? 0 then None else nth_error dayNames (Z.to_nat dayOfWeek).

Definition isDateInPast (date now : Z) : bool := date <? now.

Definition getTimeUntilDate (targetDate now : Z) : Countdown :=
  let diff := targetDate - now in
  if diff <=? 0
  then {| days := 0; hours := 0; minutes := 0; seconds := 0; totalMs := 0 |}
  else
    {| days := diff / (1000 * 60 * 60 * 24);
       hours := Z.rem diff (1000 * 60 * 60 * 24) / (1000 * 60 * 60);
       minutes := Z.rem diff (1000 * 60 * 60) / (1000 * 60);
       seconds := Z.rem diff (1000 * 60) / 1000;
       totalMs := diff |}.

End DateCalculations.

(** ** AutoDrawingService

    The service object, the interval timers it owns, the clock and the
    lottery data module it calls.  [console.log] output is left out. *)

Module AutoDrawingService.

Import DateCalculations.

Record AutoDrawingConfig : Type := {
  enabled : bool;
  nextScheduledTime : option Z;
  dayOfWeek : option Z;
  hour : option Z;
  minute : Z
}.

Section Service.

(** The lottery data module and the calendar functions that need the
    server's time zone. *)
Context {Lottery : Type}
        (getCurrentDrawing : Lottery -> bool)
        (performIntelligentDrawing : Lottery -> Lottery)
        (getGlobalDisplayOverrides : Lottery -> option DisplayOverrides)
        (getDay : string -> option Z)
        (getNextDrawingDate : DrawingSchedule -> Z -> Z).

Record State : Type := {
  config : AutoDrawingConfig;
  intervalId : option nat;
  timers : list nat;      (* the intervals that are running *)
  timerSeq : nat;         (* the handle the next [setInterval] returns *)
  lottery : Lottery
}.

Definition withConfig (st : State) (c : AutoDrawingConfig) : State :=
  {| config := c; intervalId := intervalId st; timers := timers st;
     timerSeq := timerSeq st; lottery := lottery st |}.

Definition calculateNextDrawingDate (displayOverrides : option DisplayOverrides) (now : Z)
  : Z :=
  getNextDrawingDate (getCurrentDrawingSchedule getDay displayOverrides) now.

Definition calculateNextDrawingTime (now : Z) (st : State) : State :=
  let displayOverrides := getGlobalDisplayOverrides (lottery st) in
  let nextDrawingDate := calculateNextDrawingDate displayOverrides now in
  let schedule := getCurrentDrawingSchedule getDay displayOverrides in
  withConfig st
    {| enabled := enabled (config st);
       nextScheduledTime := Some nextDrawingDate;
       dayOfWeek := sched_dayOfWeek schedule;
       hour := JS.parseInt (hd EmptyString (JS.split ":" (sched_time schedule)));
       minute := minute (config st) |}.

Definition stopScheduler (st : State) : State :=
  match intervalId st with
  | Some h =>
      {| config := config st; intervalId := None;
         timers := filter (fun t => negb (Nat.eqb t h)) (timers st);
         timerSeq := timerSeq st; lottery := lottery st |}
  | None => st
  end.

Definition startScheduler (st : State) : State :=
  let st := stopScheduler st in
  if negb (enabled (config st)) then st
  else
    {| config := config st; intervalId := Some (timerSeq st);
       timers := timerSeq st :: timers st;
       timerSeq := S (timerSeq st); lottery := lottery st |}.

(** [performDrawing] has no [await]: its body runs when it is called, and
    its [catch] swallows what [performIntelligentDrawing] throws. *)
Definition performDrawing (st : State) : State :=
  {| config := config st; intervalId := intervalId st; timers := timers st;
     timerSeq := timerSeq st; lottery := performIntelligentDrawing (lottery st) |}.

Definition initialConfig : AutoDrawingConfig :=
  {| enabled := false; nextScheduledTime := None; dayOfWeek := Some 5;
     hour := Some 21; minute := 0 |}.

(** [new AutoDrawingService()] *)
Definition construct (now : Z) (l : Lottery) : State :=
  let st := calculateNextDrawingTime now
              {| config := initialConfig; intervalId := None; timers := [];
                 timerSeq := 0; lottery := l |} in
  if enabled (config st) then startScheduler st else st.

Definition setAutoDrawingEnabled (flag : bool) (now : Z) (st : State) : State :=
  let st := withConfig st
              {| enabled := flag;
                 nextScheduledTime := nextScheduledTime (config st);
                 dayOfWeek := dayOfWeek (config st);
                 hour := hour (config st);
                 minute := minute (config st) |} in
  if flag then startScheduler (calculateNextDrawingTime now st)
  else stopScheduler (calculateNextDrawingTime now st).

Definition getConfig (st : State) : AutoDrawingConfig := config st.

Definition getNextDrawingTime (st : State) : option Z := nextScheduledTime (config st).

Definition triggerManualDrawing (st : State) : bool * State :=
  if negb (getCurrentDrawing (lottery st)) then (false, st)
  else (true, performDrawing st).

Definition recalculateNextDrawingTime (now : Z) (st : State) : State :=
  calculateNextDrawingTime now st.

(** The callback of the interval. *)
Definition checkForScheduledDrawing (now : Z) (st : State) : State :=
  match nextScheduledTime (config st) with
  | Some next =>
      if negb (enabled (config st)) then st
      else if next <=? now
      then calculateNextDrawingTime now (performDrawing st)
      else st
  | None => st
  end.

Definition getTimeUntilNextDrawing (now : Z) (st : State) : Countdown :=
  match nextScheduledTime (config st) with
  | None => {| days := 0; hours := 0; minutes := 0; seconds := 0; totalMs := 0 |}
  | Some next =>
      let diff := next - now in
      if diff <=? 0
      then {| days := 0; hours := 0; minutes := 0; seconds := 0; totalMs := 0 |}
      else
        {| days := diff / (1000 * 60 * 60 * 24);
           hours := Z.rem diff (1000 * 60 * 60 * 24) / (1000 * 60 * 60);
           minutes := Z.rem diff (1000 * 60 * 60) / (1000 * 60);
           seconds := Z.rem diff (1000 * 60) / 1000;
           totalMs := diff |}
  end.

(** The calls the rest of the server makes on the service, and the firing
    of its interval. *)
Inductive Call : Type :=
| SetAutoDrawingEnabled (flag : bool)
| TriggerManualDrawing
| RecalculateNextDrawingTime
| IntervalFires.

Definition call (c : Call) (now : Z) (st : State) : State :=
  match c with
  | SetAutoDrawingEnabled flag => setAutoDrawingEnabled flag now st
  | TriggerManualDrawing => snd (triggerManualDrawing st)
  | RecalculateNextDrawingTime => recalculateNextDrawingTime now st
  | IntervalFires =>
      match timers st with
      | [] => st
      | _ => checkForScheduledDrawing now st
      end
  end.

(** A run: the calls in order, each with the clock reading at its time. *)
Fixpoint run (calls : list (Call * Z)) (st : State) : State :=
  match calls with
  | [] => st
  | (c, now) :: rest => run rest (call c now st)
  end.

End Service.

End AutoDrawingService.

(** ** Concrete runs *)

Module Examples.

Definition hexAddr (c : ascii) : string := "0x" ++ JS.repeatChar 40 c.
Definition deposit : string := hexAddr "d".
Definition alice : string := hexAddr "a".
Definition token : string := hexAddr "c".

Definition env0 : Env :=
  {| OP_RPC_URL := "http://rpc"; OP_MAINNET_RPC_URL := "";
     USDC_TOKEN_ADDRESS_OP_SEPOLIA := token; USDC_TOKEN_ADDRESS_OP_MAINNET := "";
     DEPOSIT_WALLET_ADDRESS := "0x" ++ JS.repeatChar 40 "D";
     SPLIT_WALLET_ADDRESS := ""; PAYOUT_WALLET_ADDRESS := hexAddr "e";
     USDC_MNEMONIC := "seed"; CRYPTO_CHAIN := "";
     BLOCKED_ETH_ADDRESSES := " 0xBAD , " ++ deposit |}.

(** A network that answers every lookup with the same mined receipt and
    transaction; derivation yields the address ["0x" ++ path]. *)
Definition staticClient (rc : option TransactionReceipt) (tx : option TransactionResponse)
    (head : Z) (bal : Z) : ChainClient (list (string * Z)) :=
  {| rpc_waitForTransaction := fun _ _ _ => rc;
     rpc_getTransaction := fun _ _ _ => tx;
     rpc_getBlockNumber := fun _ _ => head;
     rpc_tokenBalanceOf := fun _ _ _ _ => bal;
     rpc_sendTokenTransfer := fun l _ _ _ to v =>
       ({| sent_hash := "0xsent"; sent_receipt_status := Some (Some 1) |}, (to, v) :: l);
     abi_parseLog := fun _ => Return None;
     hd_derivePath := fun _ path => Return ("0x" ++ path) |}.

Definition receiptOk : TransactionReceipt :=
  {| rc_status := Some 1; rc_blockNumber := Some 100; rc_logs := [] |}.

Definition transferInput (to : string) (amountHex : string) : string :=
  "0xa9059cbb" ++ JS.repeatChar 24 "0" ++ JS.sliceFrom 2 to ++ amountHex.

Definition txTo (to : string) (data : string) (v : Z) : TransactionResponse :=
  {| tx_to := Some to; tx_from := alice; tx_data := data; tx_value := Some v |}.

Definition usdc0 : UsdcService.State (Ledger := list (string * Z)) :=
  {| UsdcService.providers := fun _ => None;
     UsdcService.usdcContracts := fun _ => None;
     UsdcService.ledger := [] |}.

Definition eth0 : EthService.State (Ledger := list (string * Z)) :=
  {| EthService.providers := fun _ => None; EthService.ledger := [] |}.

(** As [env0], with the deposit wallet off the blocked list. *)
Definition env1 : Env :=
  {| OP_RPC_URL := "http://rpc"; OP_MAINNET_RPC_URL := "";
     USDC_TOKEN_ADDRESS_OP_SEPOLIA := token; USDC_TOKEN_ADDRESS_OP_MAINNET := "";
     DEPOSIT_WALLET_ADDRESS := "0x" ++ JS.repeatChar 40 "D";
     SPLIT_WALLET_ADDRESS := ""; PAYOUT_WALLET_ADDRESS := hexAddr "e";
     USDC_MNEMONIC := "seed"; CRYPTO_CHAIN := "";
     BLOCKED_ETH_ADDRESSES := " 0xBAD " |}.

Definition receiptReverted : TransactionReceipt :=
  {| rc_status := Some 0; rc_blockNumber := Some 100; rc_logs := [] |}.


(** A token transfer of 1000000 units to the deposit wallet, and a native
    transfer of 5 wei to it. *)
Definition tokenTx : TransactionResponse :=
  txTo token (transferInput deposit (JS.repeatChar 58 "0" ++ "0f4240")) 0.

Definition nativeTx : TransactionResponse := txTo deposit "0x" 5.

Definition tokenClient : ChainClient (list (string * Z)) :=
  staticClient (Some receiptOk) (Some tokenTx) 100 0.

Definition nativeClient : ChainClient (list (string * Z)) :=
  staticClient (Some receiptOk) (Some nativeTx) 100 0.

Definition derived (i : nat) : string := "0x" ++ UsdcService.derivationPath i.

Definition params0 (expected : Z) : ValidationParams :=
  {| p_chain := OpSepolia; p_txHash := "0xh"; p_expectedAmount := expected;
     p_expectedSender := alice |}.

(** No seed phrase and no token address. *)
Definition envNoSeed : Env :=
  {| OP_RPC_URL := "http://rpc"; OP_MAINNET_RPC_URL := "";
     USDC_TOKEN_ADDRESS_OP_SEPOLIA := token; USDC_TOKEN_ADDRESS_OP_MAINNET := "";
     DEPOSIT_WALLET_ADDRESS := deposit;
     SPLIT_WALLET_ADDRESS := ""; PAYOUT_WALLET_ADDRESS := hexAddr "e";
     USDC_MNEMONIC := ""; CRYPTO_CHAIN := "";
     BLOCKED_ETH_ADDRESSES := "" |}.


Definition payoutClient (bal : Z) : ChainClient (list (string * Z)) :=
  {| rpc_waitForTransaction := fun _ _ _ => None;
     rpc_getTransaction := fun _ _ _ => None;
     rpc_getBlockNumber := fun _ _ => 0;
     rpc_tokenBalanceOf := fun _ _ _ _ => bal;
     rpc_sendTokenTransfer := fun l _ _ _ to v =>
       ({| sent_hash := "0xsent"; sent_receipt_status := Some (Some 1) |}, (to, v) :: l);
     abi_parseLog := fun _ => Return None;
     hd_derivePath := fun _ path =>
       Return (if String.eqb path (UsdcService.derivationPath 2)
               then hexAddr "e" else "0x" ++ path) |}.



(** A lottery module with a manual schedule on a Saturday at 20:30. *)
Definition manualOverrides : option DateCalculations.DisplayOverrides :=
  Some {| DateCalculations.manualDate := "2025-08-16";
          DateCalculations.manualTime := "20:30" |}.

Definition scheduler0 : AutoDrawingService.State (Lottery := nat) :=
  AutoDrawingService.construct (fun _ => manualOverrides) (fun _ => Some 6)
    (fun _ now => now + 60000) 0 0%nat.

End Examples.

(** ** Vocabulary of the statements *)

Fixpoint allChars (P : ascii -> bool) (s : string) : bool :=
  match s with
  | EmptyString => true
  | String c r => P c && allChars P r
  end.

(** [c] is a digit of the radix. *)
Definition isDigitOf (radix : Z) (c : ascii) : bool :=
  match JS.digitVal c with
  | Some d => d <? radix
  | None => false
  end.

Definition isDecimal (s : string) : bool := allChars (isDigitOf 10) s.
Definition isHex (s : string) : bool := allChars (isDigitOf 16) s.

(** [c] does not occur in [s]. *)
Definition lacks (c : ascii) (s : string) : bool :=
  allChars (fun x => negb (Ascii.eqb x c)) s.

(** The number a digit string denotes in a radix (Horner's rule). *)
Fixpoint horner (radix : Z) (s : string) (acc : Z) : Z :=
  match s with
  | EmptyString => acc
  | String c r =>
      horner radix r
        (acc * radix + match JS.digitVal c with Some d => d | None => 0 end)
  end.

Definition decimalValue (s : string) : Z := horner 10 s 0.
Definition hexValue (s : string) : Z := horner 16 s 0.

Definition len (s : string) : Z := Z.of_nat (String.length s).

(** The confirmation count both validators compute. *)
Definition confirmationsOf (current : Z) (receipt : TransactionReceipt) : Z :=
  current - (match rc_blockNumber receipt with Some b => b | None => current end) + 1.

(** The receipt reports success: [receipt.status === 1]. *)
Definition succeeded (receipt : TransactionReceipt) : bool :=
  match rc_status receipt with Some s => s =? 1 | None => false end.

(** What the validators answer, as a function of the state of the
    networks alone (the provider caches play no part in it); proved equal
    to the result of [validateIncomingTransfer] below. *)
Section Outcomes.

Context {Ledger : Type} (client : ChainClient Ledger) (env : Env).

Definition usdcMatch (l : Ledger) (params : ValidationParams)
    (receipt : TransactionReceipt) : Res (option UsdcService.Matched) :=
  let cfg := UsdcService.getChainConfig env (p_chain params) in
  match UsdcService.scanLogs client cfg (p_expectedSender params) (rc_logs receipt) with
  | Some m => Return (Some m)
  | None =>
      UsdcService.decodeTransferInput cfg (p_expectedSender params)
        (rpc_getTransaction client l (p_chain params) (p_txHash params))
  end.

Definition settle (l : Ledger) (params : ValidationParams)
    (receipt : TransactionReceipt) (value : Z) (from to : string) : ValidationResult :=
  if negb (value =? p_expectedAmount params)
  then failure "Amount mismatch" (Some (p_txHash params)) None
  else
    let confs := confirmationsOf (rpc_getBlockNumber client l (p_chain params)) receipt in
    if confs <? 1
    then failure "Not enough confirmations" (Some (p_txHash params)) (Some confs)
    else {| ok := true; reason := None; txHash := Some (p_txHash params);
            confirmations := Some confs; amount := Some value;
            sender := Some from; recipient := Some to |}.

Definition usdcOutcome (l : Ledger) (params : ValidationParams) : Res ValidationResult :=
  let cfg := UsdcService.getChainConfig env (p_chain params) in
  if negb (JS.truthy (UsdcService.tokenAddress cfg))
  then Return (failure "Token address not configured" None None)
  else
    match rpc_waitForTransaction client l (p_chain params) (p_txHash params) with
    | None => Return (failure "Transaction not found" None None)
    | Some receipt =>
        if negb (succeeded receipt)
        then Return (failure "Transaction reverted" (Some (p_txHash params)) None)
        else
          (matched <- usdcMatch l params receipt ;;
           match matched with
           | None =>
               Return (failure "No matching USDC transfer to deposit wallet found"
                               (Some (p_txHash params)) None)
           | Some m =>
               Return (settle l params receipt (UsdcService.m_value m)
                              (UsdcService.m_from m) (UsdcService.m_to m))
           end)%res
    end.

(** The three fields the native validator reads off the transaction. *)
Definition ethRecipient (tx : TransactionResponse) : string :=
  JS.toLowerCase (match tx_to tx with Some a => JS.orElse a "" | None => "" end).

Definition ethSender (tx : TransactionResponse) : string :=
  JS.toLowerCase (JS.orElse (tx_from tx) "").

Definition ethValue (tx : TransactionResponse) : Z :=
  match tx_value tx with Some v => v | None => 0 end.

Definition ethOutcome (l : Ledger) (params : ValidationParams) : Res ValidationResult :=
  let cfg := EthService.getChainConfig env (p_chain params) in
  let txHash := p_txHash params in
  match rpc_waitForTransaction client l (p_chain params) txHash with
  | None => Return (failure "Transaction not found" None None)
  | Some receipt =>
      if negb (succeeded receipt)
      then Return (failure "Transaction reverted" (Some txHash) None)
      else
        match rpc_getTransaction client l (p_chain params) txHash with
        | None => Return (failure "Transaction not found (tx)" (Some txHash) None)
        | Some tx =>
            let toAddr := ethRecipient tx in
            let fromAddr := ethSender tx in
            let value := ethValue tx in
            if EthService.isBlockedAddress env toAddr
            then Return (failure "Blocked recipient" (Some txHash) None)
            else if negb (String.eqb toAddr (EthService.depositWallet cfg))
            then Return (failure "Wrong recipient" (Some txHash) None)
            else if negb (String.eqb fromAddr (JS.toLowerCase (p_expectedSender params)))
            then Return (failure "Wrong sender" (Some txHash) None)
            else Return (settle l params receipt value fromAddr toAddr)
        end
  end.

(** The cached token contracts are the ones [getUsdcContract] creates. *)
Definition cacheConsistent (st : UsdcService.State (Ledger := Ledger)) : Prop :=
  forall chain c,
    UsdcService.usdcContracts st chain = Some c ->
    contract_address c = UsdcService.tokenAddress (UsdcService.getChainConfig env chain).

(** A computation of the token service that leaves the caches consistent. *)
Definition keepsCaches {A : Type} (m : M (UsdcService.State (Ledger := Ledger)) A) : Prop :=
  forall st, cacheConsistent st -> cacheConsistent (snd (m st)).

(** A computation of the token service that leaves the networks as they
    are. *)
Definition keepsLedger {A : Type} (m : M (UsdcService.State (Ledger := Ledger)) A) : Prop :=
  forall st, UsdcService.ledger (snd (m st)) = UsdcService.ledger st.

(** The results produced by the last two steps of a validation (amount
    check passed): success, or too few confirmations. *)
Definition reachesSettle (r : ValidationResult) : Prop :=
  ok r = true \/ reason r = Some "Not enough confirmations".

End Outcomes.

(** * Facts about the string primitives *)

Section StringFacts.

Lemma append_nil_r (s : string) : s ++ "" = s.
Proof. induction s as [|c s IH]; simpl; [reflexivity | now rewrite IH]. Qed.

Lemma append_assoc (a b c : string) : (a ++ b) ++ c = a ++ (b ++ c).
Proof. induction a as [|x a IH]; simpl; [reflexivity | now rewrite IH]. Qed.

Lemma length_app (a b : string) :
  String.length (a ++ b) = (String.length a + String.length b)%nat.
Proof. induction a as [|x a IH]; simpl; [reflexivity | now rewrite IH]. Qed.

Lemma len_app (a b : string) : len (a ++ b) = len a + len b.
Proof. unfold len. rewrite length_app. lia. Qed.

Lemma len_nonneg (s : string) : 0 <= len s.
Proof. unfold len. lia. Qed.

Lemma length_repeatChar (n : nat) (c : ascii) : String.length (JS.repeatChar n c) = n.
Proof. induction n as [|n IH]; simpl; [reflexivity | now rewrite IH]. Qed.

Lemma allChars_app (P : ascii -> bool) (a b : string) :
  allChars P (a ++ b) = allChars P a && allChars P b.
Proof.
  induction a as [|x a IH]; simpl; [reflexivity |].
  rewrite IH. now rewrite andb_assoc.
Qed.

Lemma allChars_repeatChar (P : ascii -> bool) (n : nat) (c : ascii) :
  P c = true -> allChars P (JS.repeatChar n c) = true.
Proof. intros Hc. induction n as [|n IH]; simpl; [reflexivity | now rewrite Hc, IH]. Qed.

Lemma allChars_impl (P Q : ascii -> bool) (s : string) :
  (forall c, P c = true -> Q c = true) ->
  allChars P s = true -> allChars Q s = true.
Proof.
  intros HPQ. induction s as [|c s IH]; simpl; [reflexivity |].
  intros H. apply andb_true_iff in H as [Hc Hs].
  now rewrite (HPQ _ Hc), (IH Hs).
Qed.

Lemma allChars_substring (P : ascii -> bool) (s : string) :
  allChars P s = true -> forall a n, allChars P (substring a n s) = true.
Proof.
  induction s as [|c s IH]; intros H a n.
  - destruct a, n; reflexivity.
  - simpl in H. apply andb_true_iff in H as [Hc Hs].
    destruct a as [|a]; [destruct n as [|n] |]; simpl; auto.
    now rewrite Hc, IH.
Qed.

Lemma allChars_sliceFrom (P : ascii -> bool) (s : string) :
  allChars P s = true -> forall a, allChars P (JS.sliceFrom a s) = true.
Proof.
  induction s as [|c s IH]; intros H a.
  - destruct a; reflexivity.
  - destruct a as [|a]; [exact H |]. simpl in *.
    apply andb_true_iff in H as [_ Hs]. now apply IH.
Qed.

(** Taking the first [n] characters. *)
Lemma substring_all (s : string) (n : nat) :
  (String.length s <= n)%nat -> substring 0 n s = s.
Proof.
  revert n. induction s as [|c s IH]; intros n Hn.
  - destruct n; reflexivity.
  - destruct n as [|n]; simpl in *; [lia |]. rewrite IH; [reflexivity | lia].
Qed.

Lemma substring_app_l (a b : string) :
  substring 0 (String.length a) (a ++ b) = a.
Proof.
  induction a as [|x a IH]; simpl.
  - destruct b; reflexivity.
  - now rewrite IH.
Qed.

Lemma substring_split (s : string) (n : nat) :
  (n <= String.length s)%nat ->
  exists b, s = substring 0 n s ++ b /\ String.length (substring 0 n s) = n.
Proof.
  revert n. induction s as [|c s IH]; intros n Hn.
  - destruct n; simpl in *; [exists ""; auto | lia].
  - destruct n as [|n]; simpl in *.
    + exists (String c s). auto.
    + destruct (IH n) as [b [Hb Hl]]; [lia |].
      exists b. split; [now rewrite <- Hb | now rewrite Hl].
Qed.

Lemma substring_skip (a n : nat) (s : string) :
  substring a n s = substring 0 n (JS.sliceFrom a s).
Proof.
  revert s. induction a as [|a IH]; intros s; [reflexivity |].
  destruct s as [|c s]; simpl.
  - destruct n; reflexivity.
  - apply IH.
Qed.

Lemma sliceFrom_substring (k m : nat) (s : string) :
  JS.sliceFrom k (substring 0 (k + m) s) = substring k m s.
Proof.
  revert s. induction k as [|k IH]; intros s; [reflexivity |].
  destruct s as [|c s]; simpl.
  - destruct m; reflexivity.
  - apply IH.
Qed.

Lemma sliceFrom_sliceFrom (a b : nat) (s : string) :
  JS.sliceFrom a (JS.sliceFrom b s) = JS.sliceFrom (b + a) s.
Proof.
  revert s. induction b as [|b IH]; intros s; [reflexivity |].
  destruct s as [|c s]; simpl; [destruct a; reflexivity | apply IH].
Qed.

(** The recipient field: the last 40 characters of the first argument slot
    are characters 34 to 73 of the call data. *)
Lemma recipient_field (data : string) :
  JS.sliceFrom 24 (JS.slice 10 74 data) = JS.slice 34 74 data.
Proof.
  unfold JS.slice.
  rewrite (substring_skip 10), (substring_skip 34).
  change (74 - 10)%nat with (24 + 40)%nat. rewrite sliceFrom_substring.
  rewrite substring_skip, sliceFrom_sliceFrom. reflexivity.
Qed.

Lemma toLowerCase_length (s : string) :
  String.length (JS.toLowerCase s) = String.length s.
Proof. induction s as [|c s IH]; simpl; [reflexivity | now rewrite IH]. Qed.

Lemma lowerChar_idem (c : ascii) : JS.lowerChar (JS.lowerChar c) = JS.lowerChar c.
Proof. destruct c as [[] [] [] [] [] [] [] []]; reflexivity. Qed.

Lemma toLowerCase_idem (s : string) :
  JS.toLowerCase (JS.toLowerCase s) = JS.toLowerCase s.
Proof.
  induction s as [|c s IH]; simpl; [reflexivity |].
  now rewrite lowerChar_idem, IH.
Qed.

Lemma toLowerCase_app (a b : string) :
  JS.toLowerCase (a ++ b) = JS.toLowerCase a ++ JS.toLowerCase b.
Proof. induction a as [|x a IH]; simpl; [reflexivity | now rewrite IH]. Qed.

Lemma truthy_toLowerCase (s : string) : JS.truthy (JS.toLowerCase s) = JS.truthy s.
Proof. destruct s; reflexivity. Qed.

Lemma orElse_truthy (s d : string) : JS.truthy s = true -> JS.orElse s d = s.
Proof. unfold JS.orElse. now intros ->. Qed.

Lemma orElse_empty (s : string) : JS.orElse s "" = s.
Proof. destruct s; reflexivity. Qed.

(** *** Trimming *)

Lemma trimStart_id (s : string) :
  allChars (fun c => negb (JS.isWhite c)) s = true -> JS.trimStart s = s.
Proof.
  destruct s as [|c s]; simpl; [reflexivity |].
  intros H. apply andb_true_iff in H as [Hc _].
  apply negb_true_iff in Hc. now rewrite Hc.
Qed.

Lemma trimEnd_id (s : string) :
  allChars (fun c => negb (JS.isWhite c)) s = true -> JS.trimEnd s = s.
Proof.
  induction s as [|c s IH]; simpl; [reflexivity |].
  intros H. apply andb_true_iff in H as [Hc Hs].
  apply negb_true_iff in Hc. rewrite (IH Hs), Hc. now destruct s.
Qed.

Lemma trim_id (s : string) :
  allChars (fun c => negb (JS.isWhite c)) s = true -> JS.trim s = s.
Proof. intros H. unfold JS.trim. rewrite (trimStart_id _ H). now apply trimEnd_id. Qed.

Lemma allChars_trimStart (P : ascii -> bool) (s : string) :
  allChars P s = true -> allChars P (JS.trimStart s) = true.
Proof.
  induction s as [|c s IH]; simpl; [reflexivity |].
  intros H. destruct (JS.isWhite c); [| exact H].
  apply andb_true_iff in H as [_ Hs]. now apply IH.
Qed.

Lemma allChars_trimEnd (P : ascii -> bool) (s : string) :
  allChars P s = true -> allChars P (JS.trimEnd s) = true.
Proof.
  induction s as [|c s IH]; simpl; [reflexivity |].
  intros H. apply andb_true_iff in H as [Hc Hs]. specialize (IH Hs).
  destruct (JS.trimEnd s) as [|c' r'].
  - destruct (JS.isWhite c); simpl; [reflexivity | now rewrite Hc].
  - simpl in *. now rewrite Hc, IH.
Qed.

Lemma allChars_trim (P : ascii -> bool) (s : string) :
  allChars P s = true -> allChars P (JS.trim s) = true.
Proof. intros H. unfold JS.trim. now apply allChars_trimEnd, allChars_trimStart. Qed.

(** *** Splitting *)

Lemma splitParts_lacks (sep : ascii) (s : string) :
  lacks sep s = true -> JS.splitParts sep s = (s, []).
Proof.
  unfold lacks. induction s as [|c s IH]; simpl; [reflexivity |].
  intros H. apply andb_true_iff in H as [Hc Hs].
  rewrite (IH Hs). apply negb_true_iff in Hc. now rewrite Hc.
Qed.

Lemma splitParts_app (sep : ascii) (a b : string) :
  lacks sep a = true ->
  JS.splitParts sep (a ++ String sep b) = (a, JS.split sep b).
Proof.
  unfold lacks, JS.split. induction a as [|c a IH]; simpl.
  - intros _. destruct (JS.splitParts sep b) as [h t]. now rewrite Ascii.eqb_refl.
  - intros H. apply andb_true_iff in H as [Hc Ha].
    rewrite (IH Ha). apply negb_true_iff in Hc.
    destruct (JS.splitParts sep b) as [h t]. now rewrite Hc.
Qed.

Lemma split_lacks (sep : ascii) (s : string) :
  lacks sep s = true -> JS.split sep s = [s].
Proof. intros H. unfold JS.split. now rewrite (splitParts_lacks _ _ H). Qed.

Lemma split_app (sep : ascii) (a b : string) :
  lacks sep a = true -> JS.split sep (a ++ String sep b) = a :: JS.split sep b.
Proof. intros H. unfold JS.split at 1. now rewrite (splitParts_app _ _ _ H). Qed.

Lemma allChars_splitParts (P : ascii -> bool) (sep : ascii) (s : string) :
  allChars P s = true ->
  allChars P (fst (JS.splitParts sep s)) = true /\
  Forall (fun x => allChars P x = true) (snd (JS.splitParts sep s)).
Proof.
  induction s as [|c s IH]; simpl; [auto |].
  intros H. apply andb_true_iff in H as [Hc Hs].
  destruct (IH Hs) as [Hh Ht].
  destruct (JS.splitParts sep s) as [h t]. simpl in *.
  destruct (Ascii.eqb c sep); simpl; [auto | rewrite Hc, Hh; auto].
Qed.

Lemma allChars_split (P : ascii -> bool) (sep : ascii) (s : string) :
  allChars P s = true -> Forall (fun x => allChars P x = true) (JS.split sep s).
Proof.
  intros H. unfold JS.split.
  destruct (allChars_splitParts P sep s H) as [Hh Ht].
  destruct (JS.splitParts sep s) as [h t]. auto.
Qed.

End StringFacts.

(** * Facts about [BigInt] and [toString] *)

Section NumberFacts.

Lemma digit_classes (c : ascii) :
  isDigitOf 10 c = true ->
  JS.isWhite c = false /\ Ascii.eqb c "+" = false /\ Ascii.eqb c "-" = false /\
  Ascii.eqb c "." = false /\ JS.isChar c "x" "X" = false /\
  JS.isChar c "o" "O" = false /\ JS.isChar c "b" "B" = false.
Proof.
  destruct c as [[] [] [] [] [] [] [] []]; vm_compute; intros H;
    try discriminate H; repeat split.
Qed.

Lemma hex_not_white (c : ascii) : isDigitOf 16 c = true -> JS.isWhite c = false.
Proof.
  destruct c as [[] [] [] [] [] [] [] []]; vm_compute; intros H;
    try discriminate H; reflexivity.
Qed.

Lemma digitVal_nonneg (c : ascii) (d : Z) : JS.digitVal c = Some d -> 0 <= d.
Proof.
  unfold JS.digitVal.
  repeat match goal with
         | |- context [if ?b then _ else _] => destruct b eqn:?
         end; intros H; inversion H; subst; lia.
Qed.

Lemma digitChar_digit (d : Z) :
  0 <= d < 10 -> JS.digitVal (JS.digitChar d) = Some d /\ isDigitOf 10 (JS.digitChar d) = true.
Proof.
  intros H.
  assert (d = 0 \/ d = 1 \/ d = 2 \/ d = 3 \/ d = 4 \/ d = 5 \/ d = 6 \/ d = 7
          \/ d = 8 \/ d = 9) as Hd by lia.
  repeat (destruct Hd as [-> | Hd]; [split; reflexivity |]).
  subst. split; reflexivity.
Qed.

(** Horner's rule over an append, and with a non-zero start. *)
Lemma horner_app (r : Z) (a b : string) (acc : Z) :
  horner r (a ++ b) acc = horner r b (horner r a acc).
Proof. revert acc. induction a as [|c a IH]; intros acc; simpl; [reflexivity | apply IH]. Qed.

Lemma horner_acc (r : Z) (s : string) (acc : Z) :
  horner r s acc = acc * r ^ len s + horner r s 0.
Proof.
  revert acc. induction s as [|c s IH]; intros acc.
  - unfold len. simpl. lia.
  - cbn [horner]. rewrite IH. rewrite (IH (0 * r + _)).
    replace (len (String c s)) with (Z.succ (len s)) by (unfold len; simpl; lia).
    rewrite Z.pow_succ_r by apply len_nonneg. ring.
Qed.

Lemma horner_bounds (r : Z) (s : string) :
  0 < r -> allChars (isDigitOf r) s = true -> 0 <= horner r s 0 < r ^ len s.
Proof.
  intros Hr. induction s as [|c s IH]; [unfold len; simpl; lia |].
  cbn [horner allChars]. intros H. apply andb_true_iff in H as [Hc Hs].
  specialize (IH Hs). unfold isDigitOf in Hc.
  destruct (JS.digitVal c) as [d|] eqn:Hd; [| discriminate].
  apply Z.ltb_lt in Hc. pose proof (digitVal_nonneg _ _ Hd) as Hd0.
  rewrite horner_acc.
  replace (len (String c s)) with (Z.succ (len s)) by (unfold len; simpl; lia).
  rewrite Z.pow_succ_r by apply len_nonneg.
  assert (0 < r ^ len s) by (apply Z.pow_pos_nonneg; [lia | apply len_nonneg]).
  nia.
Qed.

Lemma decimalValue_app (a b : string) :
  decimalValue (a ++ b) = decimalValue a * 10 ^ len b + decimalValue b.
Proof. unfold decimalValue. rewrite horner_app, horner_acc. reflexivity. Qed.

Lemma decimalValue_zeros (n : nat) : decimalValue (JS.repeatChar n "0") = 0.
Proof.
  unfold decimalValue. induction n as [|n IH]; simpl; [reflexivity |]. exact IH.
Qed.

(** On digit strings the parser computes Horner's value. *)
Lemma parseDigits_value (r : Z) (s : string) (acc : Z) :
  allChars (isDigitOf r) s = true -> JS.parseDigits r s acc = Some (horner r s acc).
Proof.
  revert acc. induction s as [|c s IH]; intros acc; simpl; [reflexivity |].
  intros H. apply andb_true_iff in H as [Hc Hs]. unfold isDigitOf in Hc.
  destruct (JS.digitVal c) as [d|]; [| discriminate].
  rewrite Hc. now apply IH.
Qed.

Lemma parseDigits_nonneg (r : Z) (s : string) (acc z : Z) :
  0 <= r -> 0 <= acc -> JS.parseDigits r s acc = Some z -> 0 <= z.
Proof.
  intros Hr. revert acc. induction s as [|c s IH]; intros acc Hacc; simpl.
  - intros H. inversion H. lia.
  - destruct (JS.digitVal c) as [d|] eqn:Hd; [| discriminate].
    destruct (d <? r); [| discriminate].
    apply IH. pose proof (digitVal_nonneg _ _ Hd). nia.
Qed.

Lemma parseNat_nonneg (r : Z) (s : string) (z : Z) :
  0 <= r -> JS.parseNat r s = Some z -> 0 <= z.
Proof.
  intros Hr. destruct s as [|c s]; [discriminate |].
  unfold JS.parseNat. now apply parseDigits_nonneg.
Qed.

Lemma decimal_not_white (s : string) :
  isDecimal s = true -> allChars (fun c => negb (JS.isWhite c)) s = true.
Proof.
  apply allChars_impl. intros c Hc.
  destruct (digit_classes c Hc) as [Hw _]. now rewrite Hw.
Qed.

Lemma decimal_lacks_dot (s : string) : isDecimal s = true -> lacks "." s = true.
Proof.
  apply allChars_impl. intros c Hc.
  destruct (digit_classes c Hc) as (_ & _ & _ & Hdot & _). now rewrite Hdot.
Qed.

(** [BigInt] of a non-empty string of decimal digits. *)
Lemma StringToBigInt_decimal (s : string) :
  isDecimal s = true -> JS.truthy s = true ->
  JS.StringToBigInt s = Some (decimalValue s).
Proof.
  intros Hs Hne. unfold JS.StringToBigInt.
  rewrite (trim_id _ (decimal_not_white _ Hs)).
  destruct s as [|c r]; [discriminate |].
  pose proof Hs as Hs'. simpl in Hs'. apply andb_true_iff in Hs' as [Hc Hr].
  destruct (digit_classes c Hc) as (_ & Hplus & Hminus & _ & _).
  rewrite Hplus, Hminus.
  assert (JS.parseNat 10 (String c r) = Some (decimalValue (String c r))) as Hp
    by (unfold JS.parseNat; now apply parseDigits_value).
  destruct (Ascii.eqb c "0") eqn:Hz; [| exact Hp].
  destruct r as [|k r'].
  - apply Ascii.eqb_eq in Hz. subst. reflexivity.
  - simpl in Hr. apply andb_true_iff in Hr as [Hk _].
    destruct (digit_classes k Hk) as (_ & _ & _ & _ & Hx & Ho & Hb).
    rewrite Hx, Ho, Hb. exact Hp.
Qed.

Lemma BigInt_decimal (s : string) :
  isDecimal s = true -> JS.truthy s = true -> JS.BigInt s = Return (decimalValue s).
Proof. intros Hs Hne. unfold JS.BigInt. now rewrite StringToBigInt_decimal. Qed.

(** [BigInt('0x' + h)] for a non-empty string of hexadecimal digits. *)
Lemma BigInt_hex (h : string) :
  isHex h = true -> JS.truthy h = true -> JS.BigInt ("0x" ++ h) = Return (hexValue h).
Proof.
  intros Hh Hne. unfold JS.BigInt, JS.StringToBigInt.
  rewrite trim_id.
  - simpl. destruct h as [|c r]; [discriminate |].
    unfold JS.parseNat. now rewrite parseDigits_value.
  - simpl. apply (allChars_impl (isDigitOf 16)); [| exact Hh].
    intros c Hc. now rewrite (hex_not_white c Hc).
Qed.

(** [BigInt('0x')] is a SyntaxError. *)
Lemma BigInt_hex_empty : JS.BigInt "0x" = Throw (SyntaxError "0x").
Proof. reflexivity. Qed.

(** *** Decimal rendering *)

Lemma decDigits_decimal (f : nat) (n : Z) :
  0 <= n -> isDecimal (JS.decDigits f n) = true.
Proof.
  revert n. induction f as [|f IH]; intros n Hn; simpl; [reflexivity |].
  destruct (Z.ltb_spec n 10).
  - unfold isDecimal. cbn [allChars].
    destruct (digitChar_digit n) as [_ ->]; [lia | reflexivity].
  - unfold isDecimal. rewrite allChars_app. fold (isDecimal (JS.decDigits f (n / 10))).
    rewrite IH by (apply Z.div_pos; lia). cbn [allChars].
    destruct (digitChar_digit (n mod 10)) as [_ ->]; [| reflexivity].
    apply Z.mod_pos_bound. lia.
Qed.

Lemma decDigits_truthy (f : nat) (n : Z) : JS.truthy (JS.decDigits (S f) n) = true.
Proof.
  simpl. destruct (n <? 10); [reflexivity |].
  destruct (JS.decDigits f (n / 10)); reflexivity.
Qed.

Lemma decDigits_value (f : nat) (n : Z) :
  0 <= n < 2 ^ Z.of_nat f -> decimalValue (JS.decDigits f n) = n.
Proof.
  revert n. induction f as [|f IH]; intros n Hn.
  - simpl in *. assert (n = 0) by lia. subst. reflexivity.
  - simpl JS.decDigits. destruct (Z.ltb_spec n 10).
    + unfold decimalValue. cbn [horner].
      destruct (digitChar_digit n) as [-> _]; lia.
    + rewrite decimalValue_app. rewrite IH.
      * unfold decimalValue. cbn [horner].
        destruct (digitChar_digit (n mod 10)) as [-> _].
        { apply Z.mod_pos_bound. lia. }
        change (len (String (JS.digitChar (n mod 10)) "")) with 1.
        pose proof (Z.div_mod n 10). lia.
      * rewrite Nat2Z.inj_succ, Z.pow_succ_r in Hn by lia.
        split; [apply Z.div_pos; lia |].
        apply Z.div_lt_upper_bound; lia.
Qed.

Lemma decDigits_length (f : nat) (n : Z) (p : nat) :
  (1 <= p)%nat -> 0 <= n < 10 ^ Z.of_nat p ->
  (String.length (JS.decDigits f n) <= p)%nat.
Proof.
  revert n p. induction f as [|f IH]; intros n p Hp Hn; simpl; [lia |].
  destruct (Z.ltb_spec n 10); [simpl; lia |].
  rewrite length_app. simpl.
  destruct p as [|[|p]]; [lia | simpl in Hn; lia |].
  assert (String.length (JS.decDigits f (n / 10)) <= S p)%nat; [| lia].
  apply IH; [lia |].
  rewrite (Nat2Z.inj_succ (S p)), Z.pow_succ_r in Hn by lia.
  split; [apply Z.div_pos; lia | apply Z.div_lt_upper_bound; lia].
Qed.

Lemma natToString_fuel (n : Z) :
  0 <= n -> 0 <= n < 2 ^ Z.of_nat (S (Z.to_nat (Z.log2 n))).
Proof.
  intros Hn. split; [exact Hn |].
  destruct (Z.eq_dec n 0) as [-> | Hz]; [reflexivity |].
  rewrite Nat2Z.inj_succ, Z2Nat.id by apply Z.log2_nonneg.
  apply Z.log2_spec. lia.
Qed.

(** The rendering of a non-negative [bigint]: decimal digits, at least one,
    denoting the number. *)
Lemma bigintToString_nonneg (z : Z) :
  0 <= z ->
  isDecimal (JS.bigintToString z) = true /\
  JS.truthy (JS.bigintToString z) = true /\
  decimalValue (JS.bigintToString z) = z.
Proof.
  intros Hz. destruct z as [|p|p]; [repeat split | | lia].
  unfold JS.bigintToString, JS.natToString. repeat split.
  - now apply decDigits_decimal.
  - apply decDigits_truthy.
  - apply decDigits_value. now apply natToString_fuel.
Qed.

Lemma bigintToString_length (z : Z) (p : nat) :
  (1 <= p)%nat -> 0 <= z < 10 ^ Z.of_nat p ->
  (String.length (JS.bigintToString z) <= p)%nat.
Proof.
  intros Hp Hz. destruct z as [|q|q]; [simpl; lia | | lia].
  unfold JS.bigintToString, JS.natToString. now apply decDigits_length.
Qed.

(** [BigInt(v.toString())] gives [v] back, for every [bigint]. *)
Lemma BigInt_bigintToString (z : Z) : JS.BigInt (JS.bigintToString z) = Return z.
Proof.
  destruct (Z.neg_nonneg_cases z) as [Hneg | Hpos].
  - destruct z as [|p|p]; try lia.
    destruct (bigintToString_nonneg (Zpos p)) as (Hd & Ht & Hv); [lia |].
    unfold JS.bigintToString in *. unfold JS.BigInt, JS.StringToBigInt.
    rewrite trim_id.
    + change (Ascii.eqb "-" "+") with false. change (Ascii.eqb "-" "-") with true.
      cbv iota.
      destruct (JS.natToString (Zpos p)) as [|c r] eqn:E; [discriminate |].
      unfold JS.parseNat. rewrite parseDigits_value by exact Hd.
      fold (decimalValue (String c r)). rewrite Hv. reflexivity.
    + simpl. now apply decimal_not_white.
  - destruct (bigintToString_nonneg z Hpos) as (Hd & Ht & Hv).
    rewrite BigInt_decimal by assumption. now rewrite Hv.
Qed.

End NumberFacts.

(** * UnitConverter *)

Section UnitConverter.

Lemma pow10_pos (k : Z) : 0 <= k -> 0 < 10 ^ k.
Proof. intros Hk. now apply Z.pow_pos_nonneg. Qed.

(** The two [BigInt] calls of [toUnits] on an input of the shape
    [i ++ "." ++ f] with no further point. *)
Lemma toUnits_point (p : nat) (i f : string) :
  lacks "." i = true -> lacks "." f = true ->
  toUnits p (i ++ "." ++ f) =
  (iv <- JS.BigInt (JS.orElse i "0") ;;
   fv <- JS.BigInt (JS.orElse (JS.slice 0 p (JS.padEnd p "0" f)) "0") ;;
   Return (iv * 10 ^ Z.of_nat p + fv))%res.
Proof.
  intros Hi Hf. unfold toUnits.
  change (i ++ "." ++ f) with (i ++ String "." f).
  rewrite (split_app _ _ _ Hi), (split_lacks _ _ Hf).
  cbn [hd nth_error]. now rewrite orElse_empty.
Qed.

Lemma toUnits_plain (p : nat) (i : string) :
  lacks "." i = true ->
  toUnits p i =
  (iv <- JS.BigInt (JS.orElse i "0") ;;
   fv <- JS.BigInt (JS.orElse (JS.slice 0 p (JS.padEnd p "0" "")) "0") ;;
   Return (iv * 10 ^ Z.of_nat p + fv))%res.
Proof. intros Hi. unfold toUnits. now rewrite (split_lacks _ _ Hi). Qed.

Lemma integer_part_value (i : string) :
  isDecimal i = true -> JS.BigInt (JS.orElse i "0") = Return (decimalValue i).
Proof.
  intros Hi. destruct i as [|c r]; [reflexivity |].
  unfold JS.orElse. cbn [JS.truthy]. now apply BigInt_decimal.
Qed.

(** The padded and cut fraction is a digit string whose value is the
    fraction scaled to [p] digits and rounded down. *)
Lemma fraction_digits (p : nat) (f : string) :
  isDecimal f = true ->
  isDecimal (JS.slice 0 p (JS.padEnd p "0" f)) = true /\
  decimalValue (JS.slice 0 p (JS.padEnd p "0" f))
  = decimalValue f * 10 ^ Z.of_nat p / 10 ^ len f.
Proof.
  intros Hf. unfold JS.slice, JS.padEnd. rewrite Nat.sub_0_r.
  destruct (Nat.le_gt_cases (String.length f) p) as [Hle | Hgt].
  - rewrite substring_all by (rewrite length_app, length_repeatChar; lia).
    split.
    + unfold isDecimal. rewrite allChars_app. fold (isDecimal f). rewrite Hf.
      now rewrite allChars_repeatChar.
    + rewrite decimalValue_app, decimalValue_zeros.
      unfold len at 1. rewrite length_repeatChar.
      replace (Z.of_nat p) with (Z.of_nat (p - String.length f) + len f)
        by (unfold len; lia).
      rewrite Z.pow_add_r by (try apply len_nonneg; lia).
      rewrite Z.mul_assoc, Z.div_mul; [lia |].
      pose proof (pow10_pos (len f) (len_nonneg f)). lia.
  - replace (p - String.length f)%nat with 0%nat by lia.
    cbn [JS.repeatChar]. rewrite append_nil_r.
    destruct (substring_split f p) as [b [Hb Hl]]; [lia |].
    set (a := substring 0 p f) in *.
    assert (isDecimal a = true /\ isDecimal b = true) as [Ha Hbd].
    { unfold isDecimal in *. rewrite Hb, allChars_app in Hf.
      now apply andb_true_iff in Hf. }
    split; [exact Ha |].
    rewrite Hb at 1 2. rewrite decimalValue_app, len_app.
    assert (len a = Z.of_nat p) as -> by (unfold len; now rewrite Hl).
    rewrite Z.pow_add_r by (try apply len_nonneg; lia).
    pose proof (pow10_pos (len b) (len_nonneg b)) as Hpb.
    pose proof (pow10_pos (Z.of_nat p) (Nat2Z.is_nonneg p)) as Hpp.
    pose proof (horner_bounds 10 b ltac:(lia) Hbd) as Hvb. fold (decimalValue b) in Hvb.
    rewrite (Z.mul_comm (10 ^ Z.of_nat p) (10 ^ len b)).
    rewrite Z.div_mul_cancel_r by lia.
    apply (Z.div_unique_pos _ _ _ (decimalValue b)); lia.
Qed.

Lemma fraction_part_value (p : nat) (f : string) :
  isDecimal f = true ->
  JS.BigInt (JS.orElse (JS.slice 0 p (JS.padEnd p "0" f)) "0")
  = Return (decimalValue f * 10 ^ Z.of_nat p / 10 ^ len f).
Proof.
  intros Hf. destruct (fraction_digits p f Hf) as [Hd Hv]. rewrite <- Hv.
  now apply integer_part_value.
Qed.

(** The conversion of an unsigned decimal literal. *)
Lemma toUnits_decimal (p : nat) (i f : string) :
  isDecimal i = true -> isDecimal f = true ->
  toUnits p (i ++ "." ++ f)
  = Return (decimalValue i * 10 ^ Z.of_nat p
            + decimalValue f * 10 ^ Z.of_nat p / 10 ^ len f).
Proof.
  intros Hi Hf.
  rewrite toUnits_point by now apply decimal_lacks_dot.
  rewrite integer_part_value, fraction_part_value by assumption. reflexivity.
Qed.

Lemma toUnits_integer (p : nat) (i : string) :
  isDecimal i = true ->
  toUnits p i = Return (decimalValue i * 10 ^ Z.of_nat p).
Proof.
  intros Hi. rewrite toUnits_plain by now apply decimal_lacks_dot.
  rewrite integer_part_value by assumption.
  rewrite (fraction_part_value p "") by reflexivity.
  cbn [bindRes]. f_equal. unfold decimalValue at 2. simpl horner.
  rewrite Z.mul_0_l, Z.div_0_l; [lia |].
  pose proof (pow10_pos (len "") (len_nonneg "")). lia.
Qed.

(** [fromUnits] of a non-negative amount and back. *)
Lemma toUnits_fromUnits (p : nat) (x : Z) :
  (1 <= p)%nat -> 0 <= x -> toUnits p (fromUnits p x) = Return x.
Proof.
  intros Hp Hx. unfold fromUnits.
  pose proof (pow10_pos (Z.of_nat p) (Nat2Z.is_nonneg p)) as Hpp.
  rewrite Z.quot_div_nonneg, Z.rem_mod_nonneg by lia.
  set (q := x / 10 ^ Z.of_nat p). set (r := x mod 10 ^ Z.of_nat p).
  assert (0 <= q) as Hq by (apply Z.div_pos; lia).
  assert (0 <= r < 10 ^ Z.of_nat p) as Hr by (apply Z.mod_pos_bound; lia).
  destruct (bigintToString_nonneg q Hq) as (Hqd & _ & Hqv).
  destruct (bigintToString_nonneg r (proj1 Hr)) as (Hrd & _ & Hrv).
  pose proof (bigintToString_length r p Hp Hr) as Hrl.
  set (F := JS.padStart p "0" (JS.bigintToString r)).
  assert (isDecimal F = true) as HFd.
  { unfold F, JS.padStart, isDecimal. rewrite allChars_app.
    rewrite allChars_repeatChar by reflexivity. exact Hrd. }
  assert (len F = Z.of_nat p) as HFl.
  { unfold F, JS.padStart, len. rewrite length_app, length_repeatChar. lia. }
  assert (decimalValue F = r) as HFv.
  { unfold F, JS.padStart. rewrite decimalValue_app, decimalValue_zeros. lia. }
  rewrite toUnits_decimal by assumption.
  rewrite Hqv, HFv, HFl, Z.div_mul by lia.
  f_equal. unfold q, r. pose proof (Z.div_mod x (10 ^ Z.of_nat p)). lia.
Qed.

Lemma StringToBigInt_nonneg (s : string) (z : Z) :
  lacks "-" s = true -> JS.StringToBigInt s = Some z -> 0 <= z.
Proof.
  intros Hs. unfold JS.StringToBigInt.
  pose proof (allChars_trim _ _ Hs) as Ht.
  destruct (JS.trim s) as [|c r]; [intros H; inversion H; lia |].
  cbn [allChars] in Ht. apply andb_true_iff in Ht as [Hc _].
  apply negb_true_iff in Hc. rewrite Hc.
  destruct (Ascii.eqb c "+"); [apply parseNat_nonneg; lia |].
  destruct (Ascii.eqb c "0"); [| apply parseNat_nonneg; lia].
  destruct r as [|k r']; [intros H; inversion H; lia |].
  repeat match goal with
         | |- context [if ?b then _ else _] => destruct b
         end; apply parseNat_nonneg; lia.
Qed.

Lemma BigInt_nonneg (s : string) (z : Z) :
  lacks "-" s = true -> JS.BigInt s = Return z -> 0 <= z.
Proof.
  intros Hs. unfold JS.BigInt.
  destruct (JS.StringToBigInt s) as [v|] eqn:E; [| discriminate].
  intros H. inversion H; subst. now apply (StringToBigInt_nonneg s).
Qed.

Lemma lacks_orElse (c : ascii) (s d : string) :
  lacks c s = true -> lacks c d = true -> lacks c (JS.orElse s d) = true.
Proof. intros Hs Hd. unfold JS.orElse. now destruct (JS.truthy s). Qed.

(** An accepted input without a minus sign converts to a non-negative
    amount, at every precision. *)
Lemma toUnits_nonneg (p : nat) (n : string) (z : Z) :
  lacks "-" n = true -> toUnits p n = Return z -> 0 <= z.
Proof.
  intros Hn. unfold toUnits.
  pose proof (allChars_split _ "." n Hn) as Hparts. fold (lacks "-") in Hparts.
  unfold JS.split in *.
  destruct (JS.splitParts "." n) as [i rest]; cbn [hd nth_error].
  - apply Forall_cons_iff in Hparts as [Hi Hrest].
    assert (lacks "-" (match nth_error rest 0 with
                       | Some f => JS.orElse f ""
                       | None => ""
                       end) = true) as Hfraw.
    { destruct rest as [|f rest']; [reflexivity |].
      apply Forall_cons_iff in Hrest as [Hf _]. cbn [nth_error].
      now apply lacks_orElse. }
    match goal with
    | |- context [JS.slice 0 p (JS.padEnd p "0" ?raw)] =>
        assert (lacks "-" (JS.orElse (JS.slice 0 p (JS.padEnd p "0" raw)) "0") = true)
          as Hfrac
    end.
    { apply lacks_orElse; [| reflexivity].
      unfold JS.slice, lacks. apply allChars_substring.
      unfold JS.padEnd. rewrite allChars_app.
      rewrite allChars_repeatChar by reflexivity.
      rewrite andb_true_r. exact Hfraw. }
    destruct (JS.BigInt (JS.orElse i "0")) as [iv|] eqn:Ei; [| discriminate].
    cbn [bindRes].
    match goal with
    | |- context [JS.BigInt ?s] => destruct (JS.BigInt s) as [fv|] eqn:Ef
    end; [| discriminate].
    cbn [bindRes]. intros H. inversion H; subst.
    apply BigInt_nonneg in Ei; [| apply lacks_orElse; [exact Hi | reflexivity]].
    apply BigInt_nonneg in Ef; [| exact Hfrac].
    pose proof (pow10_pos (Z.of_nat p) (Nat2Z.is_nonneg p)). nia.
Qed.

Lemma fraction_length (p : nat) (f : string) :
  String.length (JS.slice 0 p (JS.padEnd p "0" f)) = p.
Proof.
  unfold JS.slice. rewrite Nat.sub_0_r.
  destruct (substring_split (JS.padEnd p "0" f) p) as [b [_ Hl]]; [| exact Hl].
  unfold JS.padEnd. rewrite length_app, length_repeatChar. lia.
Qed.

(** C3: for every non-negative amount [x], rendering it with [fromUnit6]
    (precision 6) or [fromWei] (precision 18) and converting the string
    back with [toUnit6], respectively [toWei], returns exactly [x]. *)
Theorem minor_units_round_trip (x : Z) :
  0 <= x ->
  toUnit6 (fromUnit6 x) = Return x /\ toWei (fromWei x) = Return x.
Proof.
  intros Hx. unfold toUnit6, fromUnit6, toWei, fromWei.
  split; apply toUnits_fromUnits; (lia || exact Hx).
Qed.

Lemma minor_units_round_trip_witness :
  0 <= 1234567 /\
  toUnit6 (fromUnit6 1234567) = Return 1234567 /\
  toWei (fromWei 1234567) = Return 1234567.
Proof. split; [lia | apply (minor_units_round_trip 1234567); lia]. Defined.

(** C6: on a decimal string [i.f] (digits, a point, digits) the conversion
    at precision [p] pads the fraction on the right with zeros, keeps exactly
    its first [p] digits, and returns [i * 10^p] plus the kept digits read as
    an integer; that integer is the fraction scaled by [10^p] and rounded
    down, never up.  Without a point the fraction is zero.  In particular
    [toUnit6 "1.2345678"] is 1234567 and [toUnit6 "5"] is 5000000. *)
Theorem toMinorUnits_pads_and_truncates (p : nat) (i f : string) :
  isDecimal i = true -> isDecimal f = true ->
  let kept := JS.slice 0 p (JS.padEnd p "0" f) in
  String.length kept = p /\
  JS.startsWith (JS.slice 0 p f) kept = true /\
  toUnits p (i ++ "." ++ f)
    = Return (decimalValue i * 10 ^ Z.of_nat p + decimalValue kept) /\
  decimalValue kept = decimalValue f * 10 ^ Z.of_nat p / 10 ^ len f /\
  toUnits p i = Return (decimalValue i * 10 ^ Z.of_nat p) /\
  toUnit6 "1.2345678" = Return 1234567 /\
  toUnit6 "5" = Return 5000000.
Proof.
  intros Hi Hf kept.
  destruct (fraction_digits p f Hf) as [Hkd Hkv]. fold kept in Hkd, Hkv.
  repeat split.
  - apply fraction_length.
  - unfold kept, JS.startsWith, JS.slice, JS.padEnd. rewrite Nat.sub_0_r.
    generalize (JS.repeatChar (p - String.length f) "0"). clear.
    revert p. induction f as [|c f IH]; intros p z.
    + destruct p, z; reflexivity.
    + destruct p as [|p]; [reflexivity |]. simpl.
      destruct (ascii_dec c c) as [_ | Hne]; [apply IH | now elim Hne].
  - rewrite Hkv. now apply toUnits_decimal.
  - exact Hkv.
  - now apply toUnits_integer.
Qed.

Lemma toMinorUnits_pads_and_truncates_witness :
  isDecimal "1" = true /\ isDecimal "2345678" = true /\
  toUnits 6 ("1" ++ "." ++ "2345678")
    = Return (decimalValue "1" * 10 ^ Z.of_nat 6
              + decimalValue (JS.slice 0 6 (JS.padEnd 6 "0" "2345678"))).
Proof.
  split; [reflexivity | split; [reflexivity |]].
  apply (toMinorUnits_pads_and_truncates 6 "1" "2345678"); reflexivity.
Defined.

(** C9, the claim as stated fails: the signed input ["-5"] is accepted by
    both conversions and yields a negative amount. *)
Lemma negative_amount_accepted :
  toUnit6 "-5" = Return (-5000000) /\
  toWei "-5" = Return (-5000000000000000000) /\
  ~ (forall n z, toUnit6 n = Return z \/ toWei n = Return z -> 0 <= z).
Proof.
  split; [reflexivity | split; [reflexivity |]].
  intros H. specialize (H "-5" (-5000000) (or_introl eq_refl)). lia.
Qed.

(** C9, amended: every input that [toUnit6] or [toWei] accepts and that
    carries no minus sign converts to an amount greater than or equal to
    zero. *)
Theorem unsigned_amount_nonneg (n : string) (z : Z) :
  lacks "-" n = true ->
  toUnit6 n = Return z \/ toWei n = Return z ->
  0 <= z.
Proof.
  intros Hn [H | H]; exact (toUnits_nonneg _ n z Hn H).
Qed.

Lemma unsigned_amount_nonneg_witness :
  lacks "-" "1.5" = true /\ toUnit6 "1.5" = Return 1500000 /\ 0 <= 1500000.
Proof.
  split; [reflexivity | split; [reflexivity |]].
  apply (unsigned_amount_nonneg "1.5" 1500000); [reflexivity | left; reflexivity].
Defined.

End UnitConverter.

(** * The services *)

Section ServiceFacts.

Context {Ledger : Type} (client : ChainClient Ledger) (env : Env).

Let UState : Type := UsdcService.State (Ledger := Ledger).
Let EState : Type := EthService.State (Ledger := Ledger).

Lemma bind_run {W A B} (m : M W A) (k : A -> M W B) (w w' : W) (a : A) :
  m w = (Return a, w') -> bind m k w = k a w'.
Proof. intros E. unfold bind. now rewrite E. Qed.

Lemma bind_gets {W A B} (f : W -> A) (k : A -> M W B) (w : W) :
  bind (gets f) k w = k (f w) w.
Proof. reflexivity. Qed.

Lemma bind_liftRes {W A B} (r : Res A) (k : A -> M W B) (w : W) :
  bind (liftRes r) k w = match r with Return a => k a w | Throw e => (Throw e, w) end.
Proof. unfold bind, liftRes. now destruct r. Qed.

(** *** Provider and contract caches *)

Lemma usdc_getProvider_run (chain : SupportedChain) (st : UState) :
  exists p st',
    UsdcService.getProvider env chain st = (Return p, st') /\
    UsdcService.ledger st' = UsdcService.ledger st /\
    UsdcService.usdcContracts st' = UsdcService.usdcContracts st.
Proof.
  unfold UsdcService.getProvider.
  destruct (UsdcService.providers st chain) as [p|]; eauto.
Qed.

Lemma usdc_getUsdcContract_run (chain : SupportedChain) (st : UState) :
  exists c st',
    UsdcService.getUsdcContract env chain st = (Return c, st') /\
    UsdcService.ledger st' = UsdcService.ledger st /\
    contract_address c =
      match UsdcService.usdcContracts st chain with
      | Some k => contract_address k
      | None => UsdcService.tokenAddress (UsdcService.getChainConfig env chain)
      end.
Proof.
  unfold UsdcService.getUsdcContract. rewrite bind_gets.
  destruct (UsdcService.usdcContracts st chain) as [k|]; [unfold ret; eauto |].
  destruct (usdc_getProvider_run chain st) as (p & st1 & E1 & L1 & _).
  rewrite (bind_run _ _ _ _ _ E1). cbn. eauto.
Qed.

Lemma eth_getProvider_run (chain : SupportedChain) (st : EState) :
  exists p st',
    EthService.getProvider env chain st = (Return p, st') /\
    EthService.ledger st' = EthService.ledger st.
Proof.
  unfold EthService.getProvider.
  destruct (EthService.providers st chain) as [p|]; eauto.
Qed.

(** *** The validators answer from the state of the networks alone *)

Lemma usdc_matchTransfer_outcome (params : ValidationParams)
    (receipt : TransactionReceipt) (st : UState) :
  UsdcService.matchTransfer client
    (UsdcService.getChainConfig env (p_chain params)) params receipt st
  = (usdcMatch client env (UsdcService.ledger st) params receipt, st).
Proof.
  unfold UsdcService.matchTransfer, usdcMatch.
  destruct (UsdcService.scanLogs _ _ _ _); reflexivity.
Qed.

Lemma usdc_validate_outcome (params : ValidationParams) (st : UState) :
  fst (UsdcService.validateIncomingTransfer client env params st)
  = usdcOutcome client env (UsdcService.ledger st) params.
Proof.
  unfold UsdcService.validateIncomingTransfer, usdcOutcome.
  destruct (negb (JS.truthy _)); [reflexivity |].
  destruct (usdc_getProvider_run (p_chain params) st) as (p & st1 & E1 & L1 & _).
  rewrite (bind_run _ _ _ _ _ E1), bind_gets, L1.
  destruct (rpc_waitForTransaction client _ _ _) as [receipt|]; [| reflexivity].
  fold (succeeded receipt).
  destruct (negb (succeeded receipt)); [reflexivity |].
  destruct (usdc_getUsdcContract_run (p_chain params) st1) as (c & st2 & E2 & L2 & _).
  rewrite (bind_run _ _ _ _ _ E2).
  unfold bind at 1. rewrite usdc_matchTransfer_outcome, L2, L1.
  destruct (usdcMatch client env (UsdcService.ledger st) params receipt) as [[m|]|e];
    cbn [bindRes]; try reflexivity.
  unfold settle.
  destruct (negb (UsdcService.m_value m =? p_expectedAmount params)); [reflexivity |].
  rewrite bind_gets, L2, L1. fold (confirmationsOf
    (rpc_getBlockNumber client (UsdcService.ledger st) (p_chain params)) receipt).
  destruct (confirmationsOf _ _ <? 1); reflexivity.
Qed.

Lemma eth_validate_outcome (params : ValidationParams) (st : EState) :
  fst (EthService.validateIncomingTransfer client env params st)
  = ethOutcome client env (EthService.ledger st) params.
Proof.
  unfold EthService.validateIncomingTransfer, ethOutcome.
  destruct (eth_getProvider_run (p_chain params) st) as (p & st1 & E1 & L1).
  rewrite (bind_run _ _ _ _ _ E1), bind_gets, L1.
  destruct (rpc_waitForTransaction client _ _ _) as [receipt|]; [| reflexivity].
  fold (succeeded receipt).
  destruct (negb (succeeded receipt)); [reflexivity |].
  rewrite bind_gets, L1.
  destruct (rpc_getTransaction client _ _ _) as [tx|]; [| reflexivity].
  rewrite bind_liftRes. unfold ethRecipient, ethSender, ethValue.
  assert (JS.BigInt (JS.orElse (match tx_value tx with
                                | Some v => JS.bigintToString v
                                | None => "" end) "0")
          = Return (match tx_value tx with Some v => v | None => 0 end)) as ->.
  { destruct (tx_value tx) as [v|]; [| reflexivity].
    assert (JS.truthy (JS.bigintToString v) = true) as Ht.
    { destruct v as [|q|q]; try reflexivity.
      unfold JS.bigintToString, JS.natToString. apply decDigits_truthy. }
    rewrite (orElse_truthy _ _ Ht). apply BigInt_bigintToString. }
  destruct (EthService.isBlockedAddress env _); [reflexivity |].
  destruct (negb (String.eqb _ (EthService.depositWallet _))); [reflexivity |].
  destruct (negb (String.eqb _ (JS.toLowerCase (p_expectedSender params)))); [reflexivity |].
  unfold settle.
  destruct (negb (_ =? p_expectedAmount params)); [reflexivity |].
  rewrite bind_gets, L1. fold (confirmationsOf
    (rpc_getBlockNumber client (EthService.ledger st) (p_chain params)) receipt).
  destruct (confirmationsOf _ _ <? 1); reflexivity.
Qed.

End ServiceFacts.

(** * TransferValidator *)

Section TransferValidator.

Context {Ledger : Type} (client : ChainClient Ledger) (env : Env).

Let UState : Type := UsdcService.State (Ledger := Ledger).
Let EState : Type := EthService.State (Ledger := Ledger).

Lemma succeeded_iff (receipt : TransactionReceipt) :
  succeeded receipt = true <-> rc_status receipt = Some 1.
Proof.
  unfold succeeded. destruct (rc_status receipt) as [s|]; [| split; discriminate].
  rewrite Z.eqb_eq. split; [now intros -> | now intros [= ->]].
Qed.

Lemma not_succeeded (receipt : TransactionReceipt) :
  rc_status receipt <> Some 1 -> succeeded receipt = false.
Proof.
  intros H. destruct (succeeded receipt) eqn:E; [| reflexivity].
  now apply succeeded_iff in E.
Qed.

(** *** The last two steps: amount check and confirmation check *)

Lemma settle_success (l : Ledger) (params : ValidationParams)
    (receipt : TransactionReceipt) (v : Z) (from to : string) :
  ok (settle client l params receipt v from to) = true ->
  v = p_expectedAmount params /\
  1 <= confirmationsOf (rpc_getBlockNumber client l (p_chain params)) receipt /\
  settle client l params receipt v from to =
    {| ok := true; reason := None; txHash := Some (p_txHash params);
       confirmations :=
         Some (confirmationsOf (rpc_getBlockNumber client l (p_chain params)) receipt);
       amount := Some v; sender := Some from; recipient := Some to |}.
Proof.
  unfold settle.
  destruct (Z.eqb_spec v (p_expectedAmount params)); cbn [negb]; [| discriminate].
  destruct (Z.ltb_spec (confirmationsOf (rpc_getBlockNumber client l (p_chain params))
                          receipt) 1); [discriminate |].
  intros _. repeat split; [assumption | lia].
Qed.

Lemma settle_mismatch (l : Ledger) (params : ValidationParams)
    (receipt : TransactionReceipt) (v : Z) (from to : string) :
  v <> p_expectedAmount params ->
  settle client l params receipt v from to
  = failure "Amount mismatch" (Some (p_txHash params)) None.
Proof.
  intros H. unfold settle.
  destruct (Z.eqb_spec v (p_expectedAmount params)); [contradiction | reflexivity].
Qed.



(** *** Which runs reach the last two steps *)

Lemma usdcOutcome_settled (l : Ledger) (params : ValidationParams) (r : ValidationResult) :
  usdcOutcome client env l params = Return r -> reachesSettle r ->
  exists receipt m,
    rpc_waitForTransaction client l (p_chain params) (p_txHash params) = Some receipt /\
    succeeded receipt = true /\
    usdcMatch client env l params receipt = Return (Some m) /\
    r = settle client l params receipt (UsdcService.m_value m)
          (UsdcService.m_from m) (UsdcService.m_to m).
Proof.
  unfold usdcOutcome, reachesSettle.
  destruct (negb (JS.truthy _)).
  { intros [= <-] [H | H]; discriminate H. }
  destruct (rpc_waitForTransaction client l _ _) as [receipt|].
  2:{ intros [= <-] [H | H]; discriminate H. }
  destruct (succeeded receipt) eqn:Es; cbn [negb].
  2:{ intros [= <-] [H | H]; discriminate H. }
  destruct (usdcMatch client env l params receipt) as [[m|]|e] eqn:Em; cbn [bindRes].
  - intros [= <-] _. exists receipt, m. auto.
  - intros [= <-] [H | H]; discriminate H.
  - discriminate.
Qed.

Lemma ethOutcome_settled (l : Ledger) (params : ValidationParams) (r : ValidationResult) :
  ethOutcome client env l params = Return r -> reachesSettle r ->
  exists receipt tx,
    rpc_waitForTransaction client l (p_chain params) (p_txHash params) = Some receipt /\
    succeeded receipt = true /\
    rpc_getTransaction client l (p_chain params) (p_txHash params) = Some tx /\
    EthService.isBlockedAddress env (ethRecipient tx) = false /\
    ethRecipient tx = EthService.depositWallet (EthService.getChainConfig env (p_chain params)) /\
    ethSender tx = JS.toLowerCase (p_expectedSender params) /\
    r = settle client l params receipt (ethValue tx) (ethSender tx) (ethRecipient tx).
Proof.
  unfold ethOutcome, reachesSettle.
  destruct (rpc_waitForTransaction client l _ _) as [receipt|].
  2:{ intros [= <-] [H | H]; discriminate H. }
  destruct (succeeded receipt) eqn:Es; cbn [negb].
  2:{ intros [= <-] [H | H]; discriminate H. }
  destruct (rpc_getTransaction client l _ _) as [tx|].
  2:{ intros [= <-] [H | H]; discriminate H. }
  destruct (EthService.isBlockedAddress env (ethRecipient tx)) eqn:Eb.
  { intros [= <-] [H | H]; discriminate H. }
  destruct (String.eqb_spec (ethRecipient tx)
              (EthService.depositWallet (EthService.getChainConfig env (p_chain params))));
    cbn [negb].
  2:{ intros [= <-] [H | H]; discriminate H. }
  destruct (String.eqb_spec (ethSender tx) (JS.toLowerCase (p_expectedSender params)));
    cbn [negb].
  2:{ intros [= <-] [H | H]; discriminate H. }
  intros [= <-] _. exists receipt, tx. auto 10.
Qed.

(** C2: when the receipt of the transaction reports anything but success,
    both validators answer "Transaction reverted", whatever the logs of
    the receipt and whatever the transaction itself holds; the token
    validator does so once its configuration check (a token address is
    set) has passed. *)
Theorem reverted_transaction_rejected (params : ValidationParams)
    (receipt : TransactionReceipt) (l : Ledger) (su : UState) (se : EState) :
  UsdcService.ledger su = l -> EthService.ledger se = l ->
  rpc_waitForTransaction client l (p_chain params) (p_txHash params) = Some receipt ->
  rc_status receipt <> Some 1 ->
  (JS.truthy (UsdcService.tokenAddress
                (UsdcService.getChainConfig env (p_chain params))) = true ->
   fst (UsdcService.validateIncomingTransfer client env params su)
   = Return (failure "Transaction reverted" (Some (p_txHash params)) None)) /\
  fst (EthService.validateIncomingTransfer client env params se)
  = Return (failure "Transaction reverted" (Some (p_txHash params)) None).
Proof.
  intros Hu He Hrc Hst. apply not_succeeded in Hst. split.
  - intros Htok. rewrite usdc_validate_outcome, Hu. unfold usdcOutcome.
    now rewrite Htok, Hrc, Hst.
  - rewrite eth_validate_outcome, He. unfold ethOutcome. now rewrite Hrc, Hst.
Qed.

(** C1: a validation that succeeds carries the expected amount as its
    matched amount, a confirmation count of at least one, and stems from a
    matched transfer of exactly the expected amount; a matched transfer
    whose amount differs from the expected one in any way makes the
    validator answer "Amount mismatch".  First the token validator, then
    the native one. *)
Theorem exact_amount_or_mismatch (params : ValidationParams) (su : UState) (se : EState) :
  let expected := p_expectedAmount params in
  let ucfg := UsdcService.getChainConfig env (p_chain params) in
  let ecfg := EthService.getChainConfig env (p_chain params) in
  (forall r,
     fst (UsdcService.validateIncomingTransfer client env params su) = Return r ->
     ok r = true ->
     amount r = Some expected /\
     (exists c, confirmations r = Some c /\ 1 <= c) /\
     exists receipt m,
       fst (UsdcService.matchTransfer client ucfg params receipt su) = Return (Some m) /\
       UsdcService.m_value m = expected) /\
  (forall receipt m,
     JS.truthy (UsdcService.tokenAddress ucfg) = true ->
     rpc_waitForTransaction client (UsdcService.ledger su) (p_chain params) (p_txHash params)
       = Some receipt ->
     rc_status receipt = Some 1 ->
     fst (UsdcService.matchTransfer client ucfg params receipt su) = Return (Some m) ->
     UsdcService.m_value m <> expected ->
     fst (UsdcService.validateIncomingTransfer client env params su)
     = Return (failure "Amount mismatch" (Some (p_txHash params)) None)) /\
  (forall r,
     fst (EthService.validateIncomingTransfer client env params se) = Return r ->
     ok r = true ->
     amount r = Some expected /\
     (exists c, confirmations r = Some c /\ 1 <= c) /\
     exists tx,
       rpc_getTransaction client (EthService.ledger se) (p_chain params) (p_txHash params)
         = Some tx /\
       ethValue tx = expected) /\
  (forall receipt tx,
     rpc_waitForTransaction client (EthService.ledger se) (p_chain params) (p_txHash params)
       = Some receipt ->
     rc_status receipt = Some 1 ->
     rpc_getTransaction client (EthService.ledger se) (p_chain params) (p_txHash params)
       = Some tx ->
     EthService.isBlockedAddress env (ethRecipient tx) = false ->
     ethRecipient tx = EthService.depositWallet ecfg ->
     ethSender tx = JS.toLowerCase (p_expectedSender params) ->
     ethValue tx <> expected ->
     fst (EthService.validateIncomingTransfer client env params se)
     = Return (failure "Amount mismatch" (Some (p_txHash params)) None)).
Proof.
  intros expected ucfg ecfg. split; [| split; [| split]].
  - intros r Hr Hok.
    destruct (usdcOutcome_settled (UsdcService.ledger su) params r)
      as (rc & m & _ & _ & Hm & ->); [now rewrite <- usdc_validate_outcome | now left |].
    destruct (settle_success _ _ _ _ _ _ Hok) as (Hv & Hc & Heq).
    rewrite Heq. cbn [amount confirmations]. split; [now rewrite Hv |].
    split; [eauto |].
    exists rc, m. unfold ucfg. rewrite usdc_matchTransfer_outcome. auto.
  - intros receipt m Htok Hrc Hst Hm Hne.
    unfold ucfg in Hm. rewrite usdc_matchTransfer_outcome in Hm. cbn [fst] in Hm.
    apply succeeded_iff in Hst.
    rewrite usdc_validate_outcome. unfold usdcOutcome.
    fold ucfg. rewrite Htok, Hrc, Hst, Hm. cbn [negb bindRes].
    now rewrite settle_mismatch.
  - intros r Hr Hok.
    destruct (ethOutcome_settled (EthService.ledger se) params r)
      as (rc & tx & _ & _ & Htx & _ & _ & _ & ->);
      [now rewrite <- eth_validate_outcome | now left |].
    destruct (settle_success _ _ _ _ _ _ Hok) as (Hv & Hc & Heq).
    rewrite Heq. cbn [amount confirmations]. split; [now rewrite Hv |].
    split; eauto.
  - intros receipt tx Hrc Hst Htx Hb Hto Hfrom Hne.
    apply succeeded_iff in Hst.
    rewrite eth_validate_outcome. unfold ethOutcome.
    rewrite Hrc, Hst, Htx, Hb. fold ecfg. rewrite Hto, Hfrom, !String.eqb_refl.
    cbn [negb]. rewrite <- Hto, <- Hfrom. now rewrite settle_mismatch.
Qed.


(** *** The blocked-address list *)

Lemma isBlockedAddress_listed (a entry : string) :
  In entry (JS.split "," (BLOCKED_ETH_ADDRESSES env)) ->
  JS.toLowerCase (JS.trim entry) = JS.toLowerCase a ->
  JS.truthy a = true ->
  EthService.isBlockedAddress env (JS.toLowerCase a) = true.
Proof.
  intros Hin Heq Ha. unfold EthService.isBlockedAddress, EthService.blockedList.
  rewrite orElse_empty, toLowerCase_idem.
  apply existsb_exists. exists (JS.toLowerCase a). split; [| apply String.eqb_refl].
  apply filter_In. split; [| now rewrite truthy_toLowerCase].
  rewrite <- Heq. now apply (in_map (fun s => JS.toLowerCase (JS.trim s))).
Qed.

(** C5: a native-asset transaction whose destination is an entry of the
    configured blocked-address list (entries are trimmed, the comparison
    ignores case) is never validated; once the receipt is found and not
    reverted the answer is "Blocked recipient", whatever the sender and
    the amount are. *)
Theorem blocked_recipient_rejected (params : ValidationParams) (se : EState)
    (tx : TransactionResponse) (a entry : string) :
  rpc_getTransaction client (EthService.ledger se) (p_chain params) (p_txHash params)
    = Some tx ->
  tx_to tx = Some a -> JS.truthy a = true ->
  In entry (JS.split "," (BLOCKED_ETH_ADDRESSES env)) ->
  JS.toLowerCase (JS.trim entry) = JS.toLowerCase a ->
  (exists r,
     fst (EthService.validateIncomingTransfer client env params se) = Return r /\
     ok r = false) /\
  (forall receipt,
     rpc_waitForTransaction client (EthService.ledger se) (p_chain params) (p_txHash params)
       = Some receipt ->
     rc_status receipt = Some 1 ->
     fst (EthService.validateIncomingTransfer client env params se)
     = Return (failure "Blocked recipient" (Some (p_txHash params)) None)).
Proof.
  intros Htx Hto Ha Hin Heq.
  assert (EthService.isBlockedAddress env (ethRecipient tx) = true) as Hb.
  { unfold ethRecipient. rewrite Hto, orElse_empty.
    now apply (isBlockedAddress_listed a entry). }
  rewrite eth_validate_outcome. unfold ethOutcome. split.
  - destruct (rpc_waitForTransaction client _ _ _) as [receipt|]; [| eauto].
    destruct (negb (succeeded receipt)); [eauto |].
    rewrite Htx, Hb. eauto.
  - intros receipt Hrc Hst. apply succeeded_iff in Hst.
    now rewrite Hrc, Hst, Htx, Hb.
Qed.

End TransferValidator.

(** * The call-data fallback of the token validator *)

Section CalldataFallback.

Context {Ledger : Type} (client : ChainClient Ledger) (env : Env).

Let UState : Type := UsdcService.State (Ledger := Ledger).

Lemma depositWallet_lower (chain : SupportedChain) :
  JS.toLowerCase (UsdcService.depositWallet (UsdcService.getChainConfig env chain))
  = UsdcService.depositWallet (UsdcService.getChainConfig env chain).
Proof. destruct chain; apply toLowerCase_idem. Qed.

(** The decoding of a [transfer(address,uint256)] input whose amount field
    holds at least one hexadecimal digit. *)
Lemma decodeTransferInput_hex (chain : SupportedChain) (expectedSender to : string)
    (tx : TransactionResponse) :
  let cfg := UsdcService.getChainConfig env chain in
  let data := tx_data tx in
  tx_to tx = Some to ->
  JS.truthy (UsdcService.tokenAddress cfg) = true ->
  JS.toLowerCase to = JS.toLowerCase (UsdcService.tokenAddress cfg) ->
  JS.startsWith "0xa9059cbb" data = true ->
  isHex (JS.slice 74 138 data) = true -> JS.truthy (JS.slice 74 138 data) = true ->
  UsdcService.decodeTransferInput cfg expectedSender (Some tx)
  = Return
      (if String.eqb (JS.toLowerCase (tx_from tx)) (JS.toLowerCase expectedSender)
          && String.eqb (JS.toLowerCase ("0x" ++ JS.slice 34 74 data))
                        (UsdcService.depositWallet cfg)
       then Some {| UsdcService.m_from := JS.toLowerCase (tx_from tx);
                    UsdcService.m_to := UsdcService.depositWallet cfg;
                    UsdcService.m_value := hexValue (JS.slice 74 138 data) |}
       else None).
Proof.
  intros cfg data Hto Htok Heq Hsel Hhex Hne.
  unfold UsdcService.decodeTransferInput. rewrite Hto.
  assert (JS.truthy to = true) as Htt
    by (rewrite <- truthy_toLowerCase, Heq, truthy_toLowerCase; exact Htok).
  fold cfg. fold data. rewrite Htt, Heq, String.eqb_refl, Hsel. cbn [andb].
  rewrite (BigInt_hex _ Hhex Hne). cbn [bindRes].
  rewrite orElse_empty, recipient_field.
  unfold cfg at 1 2. rewrite depositWallet_lower. fold cfg.
  destruct (_ && _); reflexivity.
Qed.

(** C4, the claim as stated fails: call data that begins with the selector
    and names the deposit wallet as recipient, sent by the expected sender
    to the token contract, but that ends before the amount field, is not
    accepted as the match; the validator throws on [BigInt("0x")]. *)
Lemma truncated_calldata_throws :
  let tx := Examples.txTo Examples.token
              (Examples.transferInput Examples.deposit "") 0 in
  let cl := Examples.staticClient (Some Examples.receiptOk) (Some tx) 100 0 in
  let cfg := UsdcService.getChainConfig Examples.env0 OpSepolia in
  let params := Examples.params0 1000000 in
  UsdcService.scanLogs cl cfg (p_expectedSender params)
    (rc_logs Examples.receiptOk) = None /\
  option_map JS.toLowerCase (tx_to tx)
    = Some (JS.toLowerCase (UsdcService.tokenAddress cfg)) /\
  JS.startsWith "0xa9059cbb" (tx_data tx) = true /\
  JS.toLowerCase (tx_from tx) = JS.toLowerCase (p_expectedSender params) /\
  JS.toLowerCase ("0x" ++ JS.sliceFrom 24 (JS.slice 10 74 (tx_data tx)))
    = JS.toLowerCase (UsdcService.depositWallet cfg) /\
  fst (UsdcService.matchTransfer cl cfg params Examples.receiptOk Examples.usdc0)
    = Throw (SyntaxError "0x") /\
  fst (UsdcService.validateIncomingTransfer cl Examples.env0 params Examples.usdc0)
    = Throw (SyntaxError "0x").
Proof. vm_compute. repeat split. Qed.

(** C4, amended: when no log matched, the destination is the configured
    token contract and the call data begins with the selector of
    [transfer(address,uint256)] and holds at least one hexadecimal digit in
    its amount field (characters 74 to 137), the recipient is read from the
    low 20 bytes of the first argument slot (characters 34 to 73), the
    amount from the amount field, and the decoded transfer is the match
    exactly when its sender is the expected sender and its recipient is the
    deposit wallet, both compared in lower case. *)
Theorem calldata_fallback_match (params : ValidationParams)
    (receipt : TransactionReceipt) (st : UState) (tx : TransactionResponse)
    (to : string) :
  let cfg := UsdcService.getChainConfig env (p_chain params) in
  let data := tx_data tx in
  UsdcService.scanLogs client cfg (p_expectedSender params) (rc_logs receipt) = None ->
  rpc_getTransaction client (UsdcService.ledger st) (p_chain params) (p_txHash params)
    = Some tx ->
  tx_to tx = Some to ->
  JS.truthy (UsdcService.tokenAddress cfg) = true ->
  JS.toLowerCase to = JS.toLowerCase (UsdcService.tokenAddress cfg) ->
  JS.startsWith "0xa9059cbb" data = true ->
  isHex (JS.slice 74 138 data) = true -> JS.truthy (JS.slice 74 138 data) = true ->
  fst (UsdcService.matchTransfer client cfg params receipt st)
  = Return
      (if String.eqb (JS.toLowerCase (tx_from tx))
                     (JS.toLowerCase (p_expectedSender params))
          && String.eqb (JS.toLowerCase ("0x" ++ JS.slice 34 74 data))
                        (JS.toLowerCase (DEPOSIT_WALLET_ADDRESS env))
       then Some {| UsdcService.m_from := JS.toLowerCase (tx_from tx);
                    UsdcService.m_to := JS.toLowerCase (DEPOSIT_WALLET_ADDRESS env);
                    UsdcService.m_value := hexValue (JS.slice 74 138 data) |}
       else None).
Proof.
  intros cfg data Hlogs Htx Hto Htok Heq Hsel Hhex Hne.
  unfold cfg. rewrite usdc_matchTransfer_outcome. cbn [fst]. unfold usdcMatch.
  fold cfg. rewrite Hlogs, Htx.
  unfold cfg. rewrite (decodeTransferInput_hex _ _ to) by assumption.
  destruct (p_chain params); reflexivity.
Qed.

End CalldataFallback.

(** * KeyDerivation and SettlementExecutor *)

Section Settlement.

Context {Ledger : Type} (client : ChainClient Ledger) (env : Env).

Let UState : Type := UsdcService.State (Ledger := Ledger).

Lemma getDepositSigner_run (chain : SupportedChain) (i : nat) (address : string)
    (st : UState) :
  JS.truthy (UsdcService.mnemonic env) = true ->
  hd_derivePath client (UsdcService.mnemonic env) (UsdcService.derivationPath i)
    = Return address ->
  exists p st',
    UsdcService.getDepositSigner client env chain i st
    = (Return {| signer_index := i; signer_address := address; signer_provider := p |},
       st') /\
    UsdcService.ledger st' = UsdcService.ledger st.
Proof.
  intros Hm Hd. unfold UsdcService.getDepositSigner. rewrite Hm. cbn [negb].
  rewrite bind_liftRes, Hd.
  destruct (usdc_getProvider_run env chain st) as (p & st1 & E1 & L1 & _).
  rewrite (bind_run _ _ _ _ _ E1). unfold ret. eauto.
Qed.

(** The loop from index [i] with [n] iterations left finds nothing when
    none of the addresses it derives matches. *)
Lemma resolveLoop_miss (chain : SupportedChain) (a : string) (addr : nat -> string)
    (n i : nat) (st : UState) :
  JS.truthy (UsdcService.mnemonic env) = true ->
  (forall j, (i <= j < i + n)%nat ->
     hd_derivePath client (UsdcService.mnemonic env) (UsdcService.derivationPath j)
       = Return (addr j) /\
     JS.toLowerCase (addr j) <> a) ->
  fst (UsdcService.resolveLoop client env chain a i n st)
  = Throw (Error "Mnemonic does not derive the expected wallet address").
Proof.
  intros Hm. revert i st. induction n as [|n IH]; intros i st Hall; [reflexivity |].
  cbn [UsdcService.resolveLoop].
  destruct (Hall i ltac:(lia)) as [Hd Hne].
  destruct (getDepositSigner_run chain i (addr i) st Hm Hd) as (p & st1 & E1 & _).
  rewrite (bind_run _ _ _ _ _ E1). cbn [signer_address].
  destruct (String.eqb_spec (JS.toLowerCase (addr i)) a); [contradiction |].
  apply IH. intros j Hj. apply Hall. lia.
Qed.

(** It returns the signer of the first index whose address matches. *)
Lemma resolveLoop_hit (chain : SupportedChain) (a : string) (addr : nat -> string)
    (n i k : nat) (st : UState) :
  JS.truthy (UsdcService.mnemonic env) = true ->
  (i <= k < i + n)%nat ->
  (forall j, (i <= j <= k)%nat ->
     hd_derivePath client (UsdcService.mnemonic env) (UsdcService.derivationPath j)
       = Return (addr j)) ->
  JS.toLowerCase (addr k) = a ->
  (forall j, (i <= j < k)%nat -> JS.toLowerCase (addr j) <> a) ->
  exists s,
    fst (UsdcService.resolveLoop client env chain a i n st) = Return s /\
    signer_index s = k /\ signer_address s = addr k.
Proof.
  intros Hm. revert i st. induction n as [|n IH]; intros i st Hk Hd Hmatch Hfirst; [lia |].
  cbn [UsdcService.resolveLoop].
  destruct (getDepositSigner_run chain i (addr i) st Hm (Hd i ltac:(lia)))
    as (p & st1 & E1 & _).
  rewrite (bind_run _ _ _ _ _ E1). cbn [signer_address].
  destruct (String.eqb_spec (JS.toLowerCase (addr i)) a) as [Hi | Hi].
  - assert (k = i) as ->.
    { destruct (Nat.eq_dec k i); [assumption |].
      exfalso. apply (Hfirst i); [lia | exact Hi]. }
    unfold ret. cbn. eauto.
  - assert (k <> i) by (intros ->; contradiction).
    apply IH; [lia | intros j Hj; apply Hd; lia | exact Hmatch |
               intros j Hj; apply Hfirst; lia].
Qed.

(** C7: with a seed phrase configured from which the addresses [addr 0] to
    [addr 9] derive, [resolveSignerForAddress] returns the signer of the
    first index in 0..9 whose address equals the target in lower case, and
    fails with the address-not-derivable error when none of these ten
    matches, whatever later indices would derive. *)
Theorem resolveSigner_scans_first_ten (chain : SupportedChain) (target : string)
    (addr : nat -> string) (st : UState) :
  JS.truthy (UsdcService.mnemonic env) = true ->
  (forall i, (i < 10)%nat ->
     hd_derivePath client (UsdcService.mnemonic env) (UsdcService.derivationPath i)
       = Return (addr i)) ->
  (forall k, (k < 10)%nat ->
     JS.toLowerCase (addr k) = JS.toLowerCase target ->
     (forall j, (j < k)%nat -> JS.toLowerCase (addr j) <> JS.toLowerCase target) ->
     exists s,
       fst (UsdcService.resolveSignerForAddress client env chain target st) = Return s /\
       signer_index s = k /\ signer_address s = addr k) /\
  ((forall j, (j < 10)%nat -> JS.toLowerCase (addr j) <> JS.toLowerCase target) ->
   fst (UsdcService.resolveSignerForAddress client env chain target st)
   = Throw (Error "Mnemonic does not derive the expected wallet address")).
Proof.
  intros Hm Hd. unfold UsdcService.resolveSignerForAddress. split.
  - intros k Hk Hmatch Hfirst.
    apply (resolveLoop_hit chain _ addr); auto; try lia.
    + intros j Hj. apply Hd. lia.
    + intros j Hj. apply Hfirst. lia.
  - intros Hnone. apply (resolveLoop_miss chain _ addr); auto.
    intros j Hj. split; [apply Hd | apply Hnone]; lia.
Qed.

(** *** The contract cache stays consistent *)

Lemma cacheConsistent_empty (l : Ledger) (ps : SupportedChain -> option JsonRpcProvider) :
  cacheConsistent env
    {| UsdcService.providers := ps; UsdcService.usdcContracts := fun _ => None;
       UsdcService.ledger := l |}.
Proof. intros chain c H. discriminate H. Qed.

Lemma keeps_ret {A} (a : A) : keepsCaches (Ledger := Ledger) env (ret (W := UState) a).
Proof. intros st H. exact H. Qed.

Lemma keeps_throw {A} (e : Exn) : keepsCaches (Ledger := Ledger) env (throw (W := UState) (A := A) e).
Proof. intros st H. exact H. Qed.

Lemma keeps_gets {A} (f : UState -> A) : keepsCaches (Ledger := Ledger) env (gets f).
Proof. intros st H. exact H. Qed.

Lemma keeps_liftRes {A} (r : Res A) : keepsCaches (Ledger := Ledger) env (liftRes (W := UState) r).
Proof. intros st H. exact H. Qed.

Lemma keeps_bind {A B} (m : M UState A) (k : A -> M UState B) :
  keepsCaches (Ledger := Ledger) env m -> (forall a, keepsCaches (Ledger := Ledger) env (k a)) -> keepsCaches (Ledger := Ledger) env (bind m k).
Proof.
  intros Hm Hk st Hst. unfold bind. specialize (Hm st Hst).
  destruct (m st) as [[a|e] st1]; cbn [snd] in *; [now apply Hk | exact Hm].
Qed.

Lemma keeps_getProvider (chain : SupportedChain) :
  keepsCaches (Ledger := Ledger) env (UsdcService.getProvider env chain).
Proof.
  intros st Hst.
  destruct (usdc_getProvider_run env chain st) as (p & st1 & E1 & _ & C1).
  rewrite E1. intros ch c. cbn [snd]. rewrite C1. apply Hst.
Qed.

Lemma keeps_getUsdcContract (chain : SupportedChain) :
  keepsCaches (Ledger := Ledger) env (UsdcService.getUsdcContract env chain).
Proof.
  intros st Hc. unfold UsdcService.getUsdcContract.
  rewrite bind_gets.
  destruct (UsdcService.usdcContracts st chain) as [k|] eqn:Ek; [exact Hc |].
  destruct (usdc_getProvider_run env chain st) as (p & st1 & E1 & L1 & C1).
  rewrite (bind_run _ _ _ _ _ E1). cbn [snd].
  intros ch c. cbn [UsdcService.usdcContracts]. unfold mapSet.
  destruct (chain_eqb ch chain) eqn:Ech.
  - intros [= <-]. destruct ch, chain; try discriminate Ech; reflexivity.
  - rewrite C1. apply Hc.
Qed.

Lemma keeps_resolveSignerForAddress (chain : SupportedChain) (target : string) :
  keepsCaches (Ledger := Ledger) env (UsdcService.resolveSignerForAddress client env chain target).
Proof.
  unfold UsdcService.resolveSignerForAddress.
  generalize 0%nat at 1. generalize 10%nat.
  induction n as [|n IH]; intros i; cbn [UsdcService.resolveLoop];
    [apply keeps_throw |].
  apply keeps_bind.
  - unfold UsdcService.getDepositSigner.
    destruct (negb _); [apply keeps_throw |].
    apply keeps_bind; [apply keeps_liftRes | intros a].
    apply keeps_bind; [apply keeps_getProvider | intros p; apply keeps_ret].
  - intros s. destruct (String.eqb _ _); [apply keeps_ret | apply IH].
Qed.

Lemma keeps_sweepToPayout (chain : SupportedChain) (fromAddress : string) :
  keepsCaches (Ledger := Ledger) env (UsdcService.sweepToPayout client env chain fromAddress).
Proof.
  unfold UsdcService.sweepToPayout, UsdcService.getTokenBalance.
  apply keeps_bind.
  - apply keeps_bind; [apply keeps_getUsdcContract | intros c].
    apply keeps_bind; [apply keeps_gets | intros b; apply keeps_liftRes].
  - intros bal. destruct (bal =? 0); [apply keeps_ret |].
    apply keeps_bind; [apply keeps_resolveSignerForAddress | intros s].
    apply keeps_bind; [apply keeps_getUsdcContract | intros c].
    apply keeps_bind.
    + intros st Hst. unfold UsdcService.sendTransfer.
      destruct (rpc_sendTokenTransfer _ _ _ _ _ _ _) as [tx l']. exact Hst.
    + intros tx. destruct (sent_receipt_status tx) as [[[|[| |]|]|]|];
        (apply keeps_ret || apply keeps_throw).
Qed.

Lemma keeps_validateIncomingTransfer (params : ValidationParams) :
  keepsCaches (Ledger := Ledger) env (UsdcService.validateIncomingTransfer client env params).
Proof.
  intros st Hst.
  destruct (UsdcService.validateIncomingTransfer client env params st) as [r st'] eqn:E.
  cbn [snd]. revert E. unfold UsdcService.validateIncomingTransfer.
  destruct (negb (JS.truthy _)); [intros [= _ <-]; exact Hst |].
  destruct (usdc_getProvider_run env (p_chain params) st) as (p & st1 & E1 & _ & C1).
  rewrite (bind_run _ _ _ _ _ E1), bind_gets.
  assert (cacheConsistent env st1) as H1 by (intros ch c; rewrite C1; apply Hst).
  destruct (rpc_waitForTransaction client _ _ _) as [receipt|];
    [| intros [= _ <-]; exact H1].
  destruct (negb _); [intros [= _ <-]; exact H1 |].
  pose proof (keeps_getUsdcContract (p_chain params) st1 H1) as H2.
  destruct (usdc_getUsdcContract_run env (p_chain params) st1) as (c & st2 & E2 & _ & _).
  rewrite E2 in H2. cbn [snd] in H2.
  rewrite (bind_run _ _ _ _ _ E2). unfold bind at 1.
  rewrite usdc_matchTransfer_outcome.
  destruct (usdcMatch client env _ params receipt) as [[m|]|e];
    try (intros [= _ <-]; exact H2).
  destruct (negb (_ =? _)); [intros [= _ <-]; exact H2 |].
  rewrite bind_gets. destruct (_ <? 1); intros [= _ <-]; exact H2.
Qed.

(** C8: when the token balance of the address is zero, [sweepToPayout]
    returns null and the run is that of creating the contract handle and
    nothing more: no signer is derived, no transfer is submitted, the state
    of the networks is the one before the call. *)
Theorem sweep_zero_balance_noop (chain : SupportedChain) (fromAddress : string)
    (st : UState) :
  cacheConsistent env st ->
  rpc_tokenBalanceOf client (UsdcService.ledger st) chain
    (UsdcService.tokenAddress (UsdcService.getChainConfig env chain)) fromAddress = 0 ->
  UsdcService.sweepToPayout client env chain fromAddress st
  = (Return None, snd (UsdcService.getUsdcContract env chain st)) /\
  UsdcService.ledger (snd (UsdcService.sweepToPayout client env chain fromAddress st))
  = UsdcService.ledger st.
Proof.
  intros Hcache Hbal.
  destruct (usdc_getUsdcContract_run env chain st) as (c & st1 & E1 & L1 & Hc).
  assert (contract_address c
          = UsdcService.tokenAddress (UsdcService.getChainConfig env chain)) as Haddr.
  { rewrite Hc. destruct (UsdcService.usdcContracts st chain) as [k|] eqn:Ek;
      [now apply Hcache | reflexivity]. }
  assert (UsdcService.sweepToPayout client env chain fromAddress st = (Return None, st1))
    as Hrun.
  { unfold UsdcService.sweepToPayout, UsdcService.getTokenBalance.
    unfold bind at 1. unfold bind at 1.
    rewrite E1, bind_gets, L1, Haddr, Hbal. reflexivity. }
  rewrite Hrun, E1. split; [reflexivity | exact L1].
Qed.

End Settlement.

(** * Concrete runs of the theorems *)

Import Examples.

Lemma exact_amount_or_mismatch_witness :
  fst (UsdcService.validateIncomingTransfer tokenClient env1 (params0 1000001) usdc0)
  = Return (failure "Amount mismatch" (Some "0xh") None).
Proof.
  pose proof (exact_amount_or_mismatch tokenClient env1 (params0 1000001) usdc0 eth0) as H.
  cbv zeta in H. destruct H as (_ & H & _).
  apply (H receiptOk
           {| UsdcService.m_from := alice; UsdcService.m_to := deposit;
              UsdcService.m_value := 1000000 |});
    [reflexivity | reflexivity | reflexivity | reflexivity | vm_compute; discriminate].
Defined.

Lemma reverted_transaction_rejected_witness :
  rc_status receiptReverted <> Some 1 /\
  fst (EthService.validateIncomingTransfer
         (staticClient (Some receiptReverted) (Some nativeTx) 100 0) env1 (params0 5) eth0)
  = Return (failure "Transaction reverted" (Some "0xh") None).
Proof.
  split; [discriminate |].
  apply (reverted_transaction_rejected
           (staticClient (Some receiptReverted) (Some nativeTx) 100 0) env1 (params0 5)
           receiptReverted [] usdc0 eth0); [reflexivity | reflexivity | reflexivity |].
  discriminate.
Defined.

Lemma calldata_fallback_match_witness :
  isHex (JS.slice 74 138 (tx_data tokenTx)) = true /\
  fst (UsdcService.matchTransfer tokenClient
         (UsdcService.getChainConfig env1 OpSepolia) (params0 1000000) receiptOk usdc0)
  = Return (Some {| UsdcService.m_from := alice; UsdcService.m_to := deposit;
                    UsdcService.m_value := 1000000 |}).
Proof.
  split; [reflexivity |].
  apply (calldata_fallback_match tokenClient env1 (params0 1000000) receiptOk usdc0
           tokenTx token); reflexivity.
Defined.

Lemma blocked_recipient_rejected_witness :
  In (" " ++ deposit) (JS.split "," (BLOCKED_ETH_ADDRESSES env0)) /\
  fst (EthService.validateIncomingTransfer nativeClient env0 (params0 5) eth0)
  = Return (failure "Blocked recipient" (Some "0xh") None).
Proof.
  assert (In (" " ++ deposit) (JS.split "," (BLOCKED_ETH_ADDRESSES env0))) as Hin
    by (vm_compute; right; left; reflexivity).
  split; [exact Hin |].
  apply (proj2 (blocked_recipient_rejected nativeClient env0 (params0 5) eth0
                  nativeTx deposit (" " ++ deposit)
                  eq_refl eq_refl eq_refl Hin eq_refl) receiptOk);
    reflexivity.
Defined.

Lemma resolveSigner_scans_first_ten_witness :
  JS.truthy (UsdcService.mnemonic env1) = true /\
  exists s,
    fst (UsdcService.resolveSignerForAddress tokenClient env1 OpSepolia
           "0xM/44'/60'/0'/0/3" usdc0) = Return s /\
    signer_index s = 3%nat /\ signer_address s = derived 3.
Proof.
  split; [reflexivity |].
  apply (proj1 (resolveSigner_scans_first_ten tokenClient env1 OpSepolia
                  "0xM/44'/60'/0'/0/3" derived usdc0 eq_refl
                  (fun i _ => eq_refl)) 3%nat); [lia | reflexivity |].
  intros j Hj. destruct j as [|[|[|j]]]; [| | | lia];
    intros H; vm_compute in H; discriminate H.
Defined.

Lemma sweep_zero_balance_noop_witness :
  rpc_tokenBalanceOf tokenClient (UsdcService.ledger usdc0) OpSepolia token deposit = 0 /\
  fst (UsdcService.sweepToPayout tokenClient env1 OpSepolia deposit usdc0) = Return None /\
  UsdcService.ledger (snd (UsdcService.sweepToPayout tokenClient env1 OpSepolia deposit usdc0))
  = UsdcService.ledger usdc0.
Proof.
  split; [reflexivity |].
  destruct (sweep_zero_balance_noop tokenClient env1 OpSepolia deposit usdc0
              (cacheConsistent_empty env1 [] (fun _ => None)) eq_refl) as [Hrun Hl].
  split; [now rewrite Hrun | exact Hl].
Defined.


(** The examples of the specification, and the failing runs. *)

Example toUnit6_examples :
  toUnit6 "1.2345678" = Return 1234567 /\ toUnit6 "5" = Return 5000000 /\
  fromUnit6 5000000 = "5.000000" /\ toWei "0.000000000000000001" = Return 1 /\
  fromWei 1 = "0.000000000000000001".
Proof. repeat split. Qed.

Example token_transfer_validated :
  fst (UsdcService.validateIncomingTransfer tokenClient env1 (params0 1000000) usdc0)
  = Return {| ok := true; reason := None; txHash := Some "0xh";
              confirmations := Some 1; amount := Some 1000000;
              sender := Some alice; recipient := Some deposit |}.
Proof. reflexivity. Qed.

Example amount_off_by_one_rejected :
  fst (UsdcService.validateIncomingTransfer tokenClient env1 (params0 1000001) usdc0)
  = Return (failure "Amount mismatch" (Some "0xh") None) /\
  fst (UsdcService.validateIncomingTransfer tokenClient env1 (params0 999999) usdc0)
  = Return (failure "Amount mismatch" (Some "0xh") None).
Proof. split; reflexivity. Qed.

Example head_behind_receipt_block :
  fst (EthService.validateIncomingTransfer
         (staticClient (Some receiptOk) (Some nativeTx) 98 0) env1 (params0 5) eth0)
  = Return (failure "Not enough confirmations" (Some "0xh") (Some (-1))).
Proof. reflexivity. Qed.

Example unconfigured_token_checked_first :
  fst (UsdcService.validateIncomingTransfer
         (staticClient (Some receiptReverted) (Some tokenTx) 100 0) env1
         {| p_chain := OpMainnet; p_txHash := "0xh"; p_expectedAmount := 1;
            p_expectedSender := alice |} usdc0)
  = Return (failure "Token address not configured" None None).
Proof. reflexivity. Qed.

Example sweep_with_balance_broadcasts :
  UsdcService.ledger
    (snd (UsdcService.sweepToPayout (staticClient None None 0 7) env1 OpSepolia
            (derived 3) usdc0))
  = [(hexAddr "e", 7)].
Proof. reflexivity. Qed.

Example unconfigured_seed_phrase_throws :
  fst (UsdcService.resolveSignerForAddress tokenClient
         {| OP_RPC_URL := ""; OP_MAINNET_RPC_URL := "";
            USDC_TOKEN_ADDRESS_OP_SEPOLIA := ""; USDC_TOKEN_ADDRESS_OP_MAINNET := "";
            DEPOSIT_WALLET_ADDRESS := ""; SPLIT_WALLET_ADDRESS := "";
            PAYOUT_WALLET_ADDRESS := ""; USDC_MNEMONIC := ""; CRYPTO_CHAIN := "";
            BLOCKED_ETH_ADDRESSES := "" |} OpSepolia deposit usdc0)
  = Throw (Error "USDC_MNEMONIC not configured").
Proof. reflexivity. Qed.

(** * Further properties of the unit conversion *)

Section UnitConverterEdges.

Lemma fromUnits_shape (p : nat) (x : Z) :
  (1 <= p)%nat -> 0 <= x ->
  exists i f,
    fromUnits p x = i ++ "." ++ f /\
    isDecimal i = true /\ JS.truthy i = true /\
    isDecimal f = true /\ String.length f = p /\
    decimalValue i = x / 10 ^ Z.of_nat p /\
    decimalValue f = x mod 10 ^ Z.of_nat p.
Proof.
  intros Hp Hx. unfold fromUnits.
  pose proof (pow10_pos (Z.of_nat p) (Nat2Z.is_nonneg p)) as Hpp.
  rewrite Z.quot_div_nonneg, Z.rem_mod_nonneg by lia.
  set (q := x / 10 ^ Z.of_nat p). set (r := x mod 10 ^ Z.of_nat p).
  assert (0 <= q) as Hq by (apply Z.div_pos; lia).
  assert (0 <= r < 10 ^ Z.of_nat p) as Hr by (apply Z.mod_pos_bound; lia).
  destruct (bigintToString_nonneg q Hq) as (Hqd & Hqt & Hqv).
  destruct (bigintToString_nonneg r (proj1 Hr)) as (Hrd & _ & Hrv).
  pose proof (bigintToString_length r p Hp Hr) as Hrl.
  exists (JS.bigintToString q), (JS.padStart p "0" (JS.bigintToString r)).
  repeat split; try assumption.
  - unfold JS.padStart, isDecimal. rewrite allChars_app.
    rewrite allChars_repeatChar by reflexivity. exact Hrd.
  - unfold JS.padStart. rewrite length_app, length_repeatChar. lia.
  - unfold JS.padStart. rewrite decimalValue_app, decimalValue_zeros. lia.
Qed.

(** X1: a non-negative amount is rendered as its whole units in decimal,
    a point, and exactly 6 (respectively 18) digits holding the remainder,
    zero-filled on the left. *)
Theorem fromMinorUnits_fixed_point (x : Z) :
  0 <= x ->
  (exists i f,
     fromUnit6 x = i ++ "." ++ f /\
     isDecimal i = true /\ JS.truthy i = true /\
     isDecimal f = true /\ String.length f = 6%nat /\
     decimalValue i = x / 10 ^ 6 /\ decimalValue f = x mod 10 ^ 6) /\
  (exists i f,
     fromWei x = i ++ "." ++ f /\
     isDecimal i = true /\ JS.truthy i = true /\
     isDecimal f = true /\ String.length f = 18%nat /\
     decimalValue i = x / 10 ^ 18 /\ decimalValue f = x mod 10 ^ 18).
Proof.
  intros Hx. split.
  - apply (fromUnits_shape 6 x); [lia | exact Hx].
  - apply (fromUnits_shape 18 x); [lia | exact Hx].
Qed.

Lemma fromMinorUnits_fixed_point_witness :
  0 <= 1500000 /\
  exists i f,
    fromUnit6 1500000 = i ++ "." ++ f /\
    isDecimal i = true /\ JS.truthy i = true /\
    isDecimal f = true /\ String.length f = 6%nat /\
    decimalValue i = 1500000 / 10 ^ 6 /\ decimalValue f = 1500000 mod 10 ^ 6.
Proof.
  split; [lia |]. apply (proj1 (fromMinorUnits_fixed_point 1500000 ltac:(lia))).
Defined.

Lemma lacks_minus_dot : lacks "." "-" = true.
Proof. reflexivity. Qed.

Lemma lacks_app (c : ascii) (a b : string) :
  lacks c (a ++ b) = lacks c a && lacks c b.
Proof. apply allChars_app. Qed.

(** [BigInt] of a minus sign followed by digits. *)
Lemma BigInt_negative (i : string) :
  isDecimal i = true -> JS.truthy i = true ->
  JS.BigInt ("-" ++ i) = Return (- decimalValue i).
Proof.
  intros Hi Ht. unfold JS.BigInt, JS.StringToBigInt.
  rewrite trim_id by (simpl; now apply decimal_not_white).
  simpl. destruct i as [|c r]; [discriminate |].
  unfold JS.parseNat. rewrite parseDigits_value by exact Hi. reflexivity.
Qed.

(** X2: on a signed decimal string the minus sign applies to the whole
    units only: the fraction is still added, so ["-1.5"] at precision 6 is
    -1000000 + 500000. *)
Theorem negative_input_adds_fraction (p : nat) (i f : string) :
  isDecimal i = true -> JS.truthy i = true -> isDecimal f = true ->
  exists a b,
    a = decimalValue i * 10 ^ Z.of_nat p /\
    b = decimalValue f * 10 ^ Z.of_nat p / 10 ^ len f /\
    0 <= b < 10 ^ Z.of_nat p /\
    toUnits p (i ++ "." ++ f) = Return (a + b) /\
    toUnits p ("-" ++ i ++ "." ++ f) = Return (- a + b).
Proof.
  intros Hi Ht Hf. eexists. eexists. split; [reflexivity |]. split; [reflexivity |].
  destruct (fraction_digits p f Hf) as [Hkd Hkv].
  split; [| split].
  - rewrite <- Hkv.
    pose proof (horner_bounds 10 _ ltac:(lia) Hkd) as Hb.
    unfold len in Hb. rewrite fraction_length in Hb. exact Hb.
  - now apply toUnits_decimal.
  - change ("-" ++ i ++ "." ++ f) with (("-" ++ i) ++ "." ++ f).
    rewrite toUnits_point.
    + rewrite (orElse_truthy ("-" ++ i) "0") by reflexivity.
      rewrite BigInt_negative, fraction_part_value by assumption.
      cbn [bindRes]. f_equal. ring.
    + rewrite lacks_app, lacks_minus_dot. now apply decimal_lacks_dot.
    + now apply decimal_lacks_dot.
Qed.

Lemma negative_input_adds_fraction_witness :
  toUnit6 ("-" ++ "1" ++ "." ++ "5") = Return (-500000).
Proof.
  destruct (negative_input_adds_fraction 6 "1" "5" eq_refl eq_refl eq_refl)
    as (a & b & -> & -> & _ & _ & H).
  exact H.
Defined.

Lemma splitParts_prefix (sep : ascii) (f r : string) :
  lacks sep f = true ->
  JS.splitParts sep (f ++ r)
  = (f ++ fst (JS.splitParts sep r), snd (JS.splitParts sep r)).
Proof.
  unfold lacks. induction f as [|c f IH]; simpl.
  - intros _. now destruct (JS.splitParts sep r).
  - intros H. apply andb_true_iff in H as [Hc Hf].
    rewrite (IH Hf). apply negb_true_iff in Hc. now rewrite Hc.
Qed.

Lemma substring_app_long (p : nat) (f r : string) :
  (p <= String.length f)%nat -> substring 0 p (f ++ r) = substring 0 p f.
Proof.
  revert p. induction f as [|c f IH]; intros p Hp.
  - simpl in Hp. assert (p = 0%nat) as -> by lia. destruct r; reflexivity.
  - destruct p as [|p]; [reflexivity |]. simpl in *. rewrite IH; [reflexivity | lia].
Qed.

(** What [toUnits] reads of an input [i.f...]: the part before the first
    point and the first [p] characters after it. *)
Lemma toUnits_long_fraction (p : nat) (i f rest : string) :
  lacks "." i = true -> lacks "." f = true -> (p <= String.length f)%nat ->
  toUnits p (i ++ "." ++ f ++ rest) =
  (iv <- JS.BigInt (JS.orElse i "0") ;;
   fv <- JS.BigInt (JS.orElse (substring 0 p f) "0") ;;
   Return (iv * 10 ^ Z.of_nat p + fv))%res.
Proof.
  intros Hi Hf Hp. unfold toUnits.
  change (i ++ "." ++ f ++ rest) with (i ++ String "." (f ++ rest)).
  rewrite (split_app _ _ _ Hi). unfold JS.split.
  rewrite (splitParts_prefix _ _ _ Hf).
  cbn [hd nth_error]. rewrite orElse_empty.
  unfold JS.slice, JS.padEnd. rewrite Nat.sub_0_r.
  rewrite append_assoc, substring_app_long by exact Hp. reflexivity.
Qed.

(** X3: once the fraction holds at least as many characters as the
    precision, nothing after them is read: whatever follows, digits or not,
    leaves the result unchanged. *)
Theorem fraction_tail_is_ignored (i f rest : string) :
  lacks "." i = true -> lacks "." f = true ->
  ((6 <= String.length f)%nat ->
   toUnit6 (i ++ "." ++ f ++ rest) = toUnit6 (i ++ "." ++ f)) /\
  ((18 <= String.length f)%nat ->
   toWei (i ++ "." ++ f ++ rest) = toWei (i ++ "." ++ f)).
Proof.
  intros Hi Hf. unfold toUnit6, toWei. split; intros Hp.
  - rewrite (toUnits_long_fraction 6 i f rest Hi Hf Hp).
    pose proof (toUnits_long_fraction 6 i f "" Hi Hf Hp) as H.
    rewrite append_nil_r in H. now rewrite H.
  - rewrite (toUnits_long_fraction 18 i f rest Hi Hf Hp).
    pose proof (toUnits_long_fraction 18 i f "" Hi Hf Hp) as H.
    rewrite append_nil_r in H. now rewrite H.
Qed.

Lemma fraction_tail_is_ignored_witness :
  toUnit6 ("1" ++ "." ++ "2345678" ++ "e-7") = toUnit6 ("1" ++ "." ++ "2345678") /\
  toUnit6 ("1" ++ "." ++ "2345678") = Return 1234567.
Proof.
  split; [| reflexivity].
  apply (proj1 (fraction_tail_is_ignored "1" "2345678" "e-7" eq_refl eq_refl)).
  simpl. lia.
Defined.

(** *** Exponent notation *)

Lemma trimEnd_cons (c : ascii) (t : string) :
  JS.isWhite c = false -> JS.trimEnd (String c t) = String c (JS.trimEnd t).
Proof. intros Hc. simpl. rewrite Hc. now destruct (JS.trimEnd t). Qed.

Lemma trimEnd_app (a : string) (c : ascii) (t : string) :
  JS.isWhite c = false ->
  JS.trimEnd (a ++ String c t) = a ++ String c (JS.trimEnd t).
Proof.
  intros Hc. induction a as [|x a IH]; [now apply trimEnd_cons |].
  cbn [append JS.trimEnd]. rewrite IH. now destruct a.
Qed.

Lemma parseDigits_stops (m t : string) (acc : Z) :
  isDecimal m = true -> JS.parseDigits 10 (m ++ String "e" t) acc = None.
Proof.
  revert acc. induction m as [|c m IH]; intros acc; [reflexivity |].
  intros H. cbn [isDecimal allChars] in H. unfold isDecimal in H. cbn [allChars] in H.
  apply andb_true_iff in H as [Hc Hm]. cbn [append JS.parseDigits].
  unfold isDigitOf in Hc. destruct (JS.digitVal c) as [d|]; [| discriminate].
  rewrite Hc. now apply IH.
Qed.

(** [BigInt] rejects digits followed by the letter e. *)
Lemma BigInt_exponent (m t : string) :
  isDecimal m = true ->
  JS.BigInt (m ++ "e" ++ t) = Throw (SyntaxError (m ++ "e" ++ t)).
Proof.
  intros Hm. unfold JS.BigInt.
  assert (JS.StringToBigInt (m ++ "e" ++ t) = None) as ->; [| reflexivity].
  unfold JS.StringToBigInt, JS.trim.
  change (m ++ "e" ++ t) with (m ++ String "e" t).
  assert (JS.trimStart (m ++ String "e" t) = m ++ String "e" t) as ->.
  { destruct m as [|c m']; [reflexivity |].
    unfold isDecimal in Hm. cbn [allChars] in Hm.
    apply andb_true_iff in Hm as [Hc _].
    destruct (digit_classes c Hc) as [Hw _]. cbn. now rewrite Hw. }
  rewrite trimEnd_app by reflexivity.
  set (t' := JS.trimEnd t).
  destruct m as [|c m']; [reflexivity |].
  pose proof Hm as Hm0. unfold isDecimal in Hm. cbn [allChars] in Hm.
  apply andb_true_iff in Hm as [Hc Hm'].
  destruct (digit_classes c Hc) as (_ & Hplus & Hminus & _).
  cbn [append]. rewrite Hplus, Hminus.
  assert (JS.parseNat 10 (String c (m' ++ String "e" t')) = None) as Hp.
  { unfold JS.parseNat. now apply (parseDigits_stops (String c m') t' 0). }
  destruct (Ascii.eqb c "0"); [| exact Hp].
  destruct m' as [|k m''].
  { cbn [append] in Hp |- *.
    change (JS.isChar "e" "x" "X") with false.
    change (JS.isChar "e" "o" "O") with false.
    change (JS.isChar "e" "b" "B") with false. exact Hp. }
  cbn [allChars] in Hm'. apply andb_true_iff in Hm' as [Hk _].
  destruct (digit_classes k Hk) as (_ & _ & _ & _ & Hx & Ho & Hb).
  cbn [append]. rewrite Hx, Ho, Hb. exact Hp.
Qed.

(** X4: a number rendered in exponent notation is rejected with a
    SyntaxError when the exponent mark stands in the whole part (["1e-7"],
    ["1e+21"]) or within the first [p] characters of the fraction
    (["1.5e-7"]). *)
Theorem exponent_notation_rejected (p : nat) (m f rest : string) :
  isDecimal m = true -> isDecimal f = true -> lacks "." rest = true ->
  toUnits p (m ++ "e" ++ rest) = Throw (SyntaxError (m ++ "e" ++ rest)) /\
  ((String.length f < p)%nat ->
   exists what, toUnits p (m ++ "." ++ f ++ "e" ++ rest) = Throw (SyntaxError what)).
Proof.
  intros Hm Hf Hrest. split.
  - rewrite toUnits_plain.
    + rewrite (orElse_truthy (m ++ "e" ++ rest) "0") by (now destruct m).
      now rewrite (BigInt_exponent m rest Hm).
    + rewrite lacks_app, (decimal_lacks_dot _ Hm). cbn. exact Hrest.
  - intros Hlen. rewrite toUnits_point.
    + rewrite integer_part_value by exact Hm. cbn [bindRes].
      unfold JS.slice, JS.padEnd. rewrite Nat.sub_0_r.
      rewrite !append_assoc.
      assert (exists t, substring 0 p (f ++ "e" ++ rest ++
                JS.repeatChar (p - String.length (f ++ "e" ++ rest)) "0")
                        = f ++ "e" ++ t) as [t Ht].
      { generalize (rest ++ JS.repeatChar (p - String.length (f ++ "e" ++ rest)) "0").
        clear - Hlen. revert p Hlen. induction f as [|c f IH]; intros p Hlen z.
        - destruct p as [|p]; [simpl in Hlen; lia |]. cbn. eauto.
        - destruct p as [|p]; [simpl in Hlen; lia |]. cbn [append substring].
          destruct (IH p ltac:(simpl in Hlen; lia) z) as [t Ht].
          exists t. cbn [append] in Ht. now rewrite Ht. }
      rewrite Ht.
      rewrite (orElse_truthy (f ++ "e" ++ t) "0") by (now destruct f).
      rewrite (BigInt_exponent f t Hf). cbn [bindRes]. eauto.
    + now apply decimal_lacks_dot.
    + rewrite lacks_app, (decimal_lacks_dot _ Hf). cbn. exact Hrest.
Qed.

Lemma exponent_notation_rejected_witness :
  toUnits 18 ("1" ++ "e" ++ "-7") = Throw (SyntaxError "1e-7").
Proof.
  apply (proj1 (exponent_notation_rejected 18 "1" "" "-7" eq_refl eq_refl eq_refl)).
Defined.

End UnitConverterEdges.

(** * Further properties of the chain registry and the caches *)

Section Registry.

Context {Ledger : Type} (env : Env).

Let UState : Type := UsdcService.State (Ledger := Ledger).
Let EState : Type := EthService.State (Ledger := Ledger).

(** X5: every wallet address of a chain configuration is in lower case, the
    two services hold the same deposit and payout wallets, and the wallets
    do not depend on the chain; the token service works with 6 decimals, the
    native one with 18. *)
Theorem config_wallets_lower_case (chain other : SupportedChain) :
  let cu := UsdcService.getChainConfig env chain in
  let ce := EthService.getChainConfig env chain in
  JS.toLowerCase (UsdcService.depositWallet cu) = UsdcService.depositWallet cu /\
  JS.toLowerCase (UsdcService.splitWallet cu) = UsdcService.splitWallet cu /\
  JS.toLowerCase (UsdcService.payoutWallet cu) = UsdcService.payoutWallet cu /\
  UsdcService.depositWallet cu = JS.toLowerCase (DEPOSIT_WALLET_ADDRESS env) /\
  EthService.depositWallet ce = UsdcService.depositWallet cu /\
  EthService.payoutWallet ce = UsdcService.payoutWallet cu /\
  UsdcService.depositWallet (UsdcService.getChainConfig env other)
    = UsdcService.depositWallet cu /\
  UsdcService.payoutWallet (UsdcService.getChainConfig env other)
    = UsdcService.payoutWallet cu /\
  UsdcService.decimals cu = 6%nat /\ EthService.decimals ce = 18%nat.
Proof.
  destruct chain, other; cbn; repeat split; apply toLowerCase_idem.
Qed.







End Registry.

(** * Further properties of key derivation and settlement *)

Section KeysAndSettlement.

Context {Ledger : Type} (client : ChainClient Ledger) (env : Env).

Let UState : Type := UsdcService.State (Ledger := Ledger).

Let configError : Exn := Error "USDC_MNEMONIC not configured".
Let notDerivable : Exn := Error "Mnemonic does not derive the expected wallet address".

Lemma bind_fail {W A B} (m : M W A) (k : A -> M W B) (w w' : W) (e : Exn) :
  m w = (Throw e, w') -> bind m k w = (Throw e, w').
Proof. intros E. unfold bind. now rewrite E. Qed.

(** *** Computations that leave the networks as they are *)

Lemma ledger_ret {A} (a : A) : keepsLedger (ret (W := UState) a).
Proof. intros st. reflexivity. Qed.

Lemma ledger_throw {A} (e : Exn) : keepsLedger (throw (W := UState) (A := A) e).
Proof. intros st. reflexivity. Qed.

Lemma ledger_gets {A} (f : UState -> A) : keepsLedger (gets f).
Proof. intros st. reflexivity. Qed.

Lemma ledger_liftRes {A} (r : Res A) : keepsLedger (liftRes (W := UState) r).
Proof. intros st. reflexivity. Qed.

Lemma ledger_bind {A B} (m : M UState A) (k : A -> M UState B) :
  keepsLedger m -> (forall a, keepsLedger (k a)) -> keepsLedger (bind m k).
Proof.
  intros Hm Hk st. unfold bind. specialize (Hm st).
  destruct (m st) as [[a|e] st1]; cbn [snd] in *; [now rewrite Hk | exact Hm].
Qed.

Lemma ledger_getProvider (chain : SupportedChain) :
  keepsLedger (Ledger := Ledger) (UsdcService.getProvider env chain).
Proof.
  intros st. destruct (usdc_getProvider_run env chain st) as (p & st1 & E1 & L1 & _).
  now rewrite E1.
Qed.

Lemma ledger_getUsdcContract (chain : SupportedChain) :
  keepsLedger (Ledger := Ledger) (UsdcService.getUsdcContract env chain).
Proof.
  intros st. destruct (usdc_getUsdcContract_run env chain st) as (c & st1 & E1 & L1 & _).
  now rewrite E1.
Qed.

Lemma ledger_getDepositSigner (chain : SupportedChain) (i : nat) :
  keepsLedger (UsdcService.getDepositSigner client env chain i).
Proof.
  unfold UsdcService.getDepositSigner.
  destruct (negb _); [apply ledger_throw |].
  apply ledger_bind; [apply ledger_liftRes | intros a].
  apply ledger_bind; [apply ledger_getProvider | intros p; apply ledger_ret].
Qed.

Lemma ledger_resolveLoop (chain : SupportedChain) (a : string) (n i : nat) :
  keepsLedger (UsdcService.resolveLoop client env chain a i n).
Proof.
  revert i. induction n as [|n IH]; intros i; cbn [UsdcService.resolveLoop];
    [apply ledger_throw |].
  apply ledger_bind; [apply ledger_getDepositSigner | intros s].
  destruct (String.eqb _ _); [apply ledger_ret | apply IH].
Qed.

Lemma ledger_resolveSignerForAddress (chain : SupportedChain) (target : string) :
  keepsLedger (UsdcService.resolveSignerForAddress client env chain target).
Proof. apply ledger_resolveLoop. Qed.

Lemma ledger_getTokenBalance (chain : SupportedChain) (address : string) :
  keepsLedger (UsdcService.getTokenBalance client env chain address).
Proof.
  unfold UsdcService.getTokenBalance.
  apply ledger_bind; [apply ledger_getUsdcContract | intros c].
  apply ledger_bind; [apply ledger_gets | intros b; apply ledger_liftRes].
Qed.

(** *** The seed phrase *)

Lemma getDepositSigner_unset (chain : SupportedChain) (i : nat) (st : UState) :
  JS.truthy (UsdcService.mnemonic env) = false ->
  UsdcService.getDepositSigner client env chain i st = (Throw configError, st).
Proof. intros H. unfold UsdcService.getDepositSigner. now rewrite H. Qed.

Lemma getDepositSigner_underivable (chain : SupportedChain) (i : nat) (e : Exn)
    (st : UState) :
  JS.truthy (UsdcService.mnemonic env) = true ->
  hd_derivePath client (UsdcService.mnemonic env) (UsdcService.derivationPath i) = Throw e ->
  UsdcService.getDepositSigner client env chain i st = (Throw e, st).
Proof.
  intros Hm Hd. unfold UsdcService.getDepositSigner. rewrite Hm. cbn [negb].
  now rewrite bind_liftRes, Hd.
Qed.

Lemma resolve_unset (chain : SupportedChain) (target : string) (st : UState) :
  JS.truthy (UsdcService.mnemonic env) = false ->
  UsdcService.resolveSignerForAddress client env chain target st
  = (Throw configError, st).
Proof.
  intros Hm. unfold UsdcService.resolveSignerForAddress.
  cbn [UsdcService.resolveLoop]. unfold bind.
  now rewrite (getDepositSigner_unset chain 0 st Hm).
Qed.

(** X8: without a seed phrase nothing can be signed: deriving a signer,
    resolving the signer of any address and paying out all throw the
    configuration error, and leave the service and the networks exactly as
    they were. *)
Theorem unset_seed_phrase_blocks_signing (chain : SupportedChain)
    (target to : string) (amount6 : Z) (i : nat) (st : UState) :
  JS.truthy (UsdcService.mnemonic env) = false ->
  UsdcService.getDepositSigner client env chain i st
    = (Throw (Error "USDC_MNEMONIC not configured"), st) /\
  UsdcService.resolveSignerForAddress client env chain target st
    = (Throw (Error "USDC_MNEMONIC not configured"), st) /\
  UsdcService.payout client env chain to amount6 st
    = (Throw (Error "USDC_MNEMONIC not configured"), st).
Proof.
  intros Hm.
  split; [now apply getDepositSigner_unset | split; [now apply resolve_unset |]].
  unfold UsdcService.payout.
  now rewrite (bind_fail _ _ _ _ _ (resolve_unset chain _ st Hm)).
Qed.

(** *** What [resolveSignerForAddress] can answer *)

Lemma resolveLoop_sound (chain : SupportedChain) (a : string) (n i : nat)
    (st : UState) (s : Signer) :
  fst (UsdcService.resolveLoop client env chain a i n st) = Return s ->
  (i <= signer_index s < i + n)%nat /\
  JS.toLowerCase (signer_address s) = a /\
  hd_derivePath client (UsdcService.mnemonic env)
    (UsdcService.derivationPath (signer_index s)) = Return (signer_address s) /\
  JS.truthy (UsdcService.mnemonic env) = true.
Proof.
  revert i st. induction n as [|n IH]; intros i st; [discriminate |].
  cbn [UsdcService.resolveLoop].
  destruct (JS.truthy (UsdcService.mnemonic env)) eqn:Hm.
  2:{ unfold bind. now rewrite (getDepositSigner_unset chain i st Hm). }
  destruct (hd_derivePath client (UsdcService.mnemonic env)
              (UsdcService.derivationPath i)) as [ad|e] eqn:Hd.
  2:{ unfold bind. now rewrite (getDepositSigner_underivable chain i e st Hm Hd). }
  destruct (getDepositSigner_run client env chain i ad st Hm Hd) as (p & st1 & E1 & _).
  rewrite (bind_run _ _ _ _ _ E1). cbn [signer_address].
  destruct (String.eqb_spec (JS.toLowerCase ad) a) as [Ha | Ha].
  - unfold ret. cbn [fst]. intros [= <-]. cbn. repeat split; auto; lia.
  - intros H. destruct (IH _ _ H) as (Hi & Hrest). split; [lia | exact Hrest].
Qed.

Lemma resolveLoop_failure (chain : SupportedChain) (a : string) (n i : nat)
    (st : UState) (e : Exn) :
  fst (UsdcService.resolveLoop client env chain a i n st) = Throw e ->
  e = configError \/ e = notDerivable \/
  exists j, (i <= j < i + n)%nat /\
    hd_derivePath client (UsdcService.mnemonic env) (UsdcService.derivationPath j) = Throw e.
Proof.
  revert i st. induction n as [|n IH]; intros i st.
  { cbn. intros [= <-]. auto. }
  cbn [UsdcService.resolveLoop].
  destruct (JS.truthy (UsdcService.mnemonic env)) eqn:Hm.
  2:{ unfold bind. rewrite (getDepositSigner_unset chain i st Hm).
      cbn. intros [= <-]. auto. }
  destruct (hd_derivePath client (UsdcService.mnemonic env)
              (UsdcService.derivationPath i)) as [ad|e'] eqn:Hd.
  2:{ unfold bind. rewrite (getDepositSigner_underivable chain i e' st Hm Hd).
      cbn. intros [= <-]. right. right. exists i. split; [lia | exact Hd]. }
  destruct (getDepositSigner_run client env chain i ad st Hm Hd) as (p & st1 & E1 & _).
  rewrite (bind_run _ _ _ _ _ E1). cbn [signer_address].
  destruct (String.eqb (JS.toLowerCase ad) a); [discriminate |].
  intros H. destruct (IH _ _ H) as [H1 | [H1 | (j & Hj & H1)]]; auto.
  right. right. exists j. split; [lia | exact H1].
Qed.

(** X9: a signer returned by [resolveSignerForAddress] is one of the first
    ten derived wallets and its address equals the target up to case.  A
    failure is the configuration error, the not-derivable error, or the
    error the derivation of one of the first ten paths threw.  In no case
    do the networks change. *)
Theorem resolved_signer_is_sound (chain : SupportedChain) (target : string)
    (st : UState) :
  let run := UsdcService.resolveSignerForAddress client env chain target st in
  (forall s, fst run = Return s ->
     (signer_index s < 10)%nat /\
     JS.toLowerCase (signer_address s) = JS.toLowerCase target /\
     hd_derivePath client (UsdcService.mnemonic env)
       (UsdcService.derivationPath (signer_index s)) = Return (signer_address s)) /\
  (forall e, fst run = Throw e ->
     e = Error "USDC_MNEMONIC not configured" \/
     e = Error "Mnemonic does not derive the expected wallet address" \/
     exists j, (j < 10)%nat /\
       hd_derivePath client (UsdcService.mnemonic env) (UsdcService.derivationPath j)
         = Throw e) /\
  UsdcService.ledger (snd run) = UsdcService.ledger st.
Proof.
  cbv zeta. unfold UsdcService.resolveSignerForAddress. split; [| split].
  - intros s H. destruct (resolveLoop_sound _ _ _ _ _ _ H) as (Hi & Ha & Hd & _).
    repeat split; [lia | exact Ha | exact Hd].
  - intros e H. destruct (resolveLoop_failure _ _ _ _ _ _ H) as [H1 | [H1 | (j & Hj & H1)]];
      auto.
    right. right. exists j. split; [lia | exact H1].
  - apply ledger_resolveLoop.
Qed.

(** *** Sweep and payout *)

Lemma getTokenBalance_run (chain : SupportedChain) (address : string) (st : UState) :
  cacheConsistent env st ->
  exists st1,
    UsdcService.getTokenBalance client env chain address st
    = (Return (rpc_tokenBalanceOf client (UsdcService.ledger st) chain
                 (UsdcService.tokenAddress (UsdcService.getChainConfig env chain)) address),
       st1) /\
    UsdcService.ledger st1 = UsdcService.ledger st /\
    cacheConsistent env st1.
Proof.
  intros Hc.
  destruct (usdc_getUsdcContract_run env chain st) as (c & st1 & E1 & L1 & Ha).
  assert (contract_address c
          = UsdcService.tokenAddress (UsdcService.getChainConfig env chain)) as Haddr.
  { rewrite Ha. destruct (UsdcService.usdcContracts st chain) as [k|] eqn:Ek;
      [now apply Hc | reflexivity]. }
  exists st1. split; [| split; [exact L1 |]].
  - unfold UsdcService.getTokenBalance.
    rewrite (bind_run _ _ _ _ _ E1), bind_gets, L1, Haddr.
    unfold liftRes. now rewrite BigInt_bigintToString.
  - pose proof (keeps_getUsdcContract env chain st Hc) as H. now rewrite E1 in H.
Qed.





(** X11: when the address holds a balance but no signer can be resolved
    for it (no seed phrase, or none of the ten derived wallets matches),
    [sweepToPayout] throws that error and submits nothing. *)
Theorem sweep_without_signer_sends_nothing (chain : SupportedChain)
    (fromAddress : string) (addr : nat -> string) (st : UState) :
  let cfg := UsdcService.getChainConfig env chain in
  let run := UsdcService.sweepToPayout client env chain fromAddress st in
  cacheConsistent env st ->
  rpc_tokenBalanceOf client (UsdcService.ledger st) chain
    (UsdcService.tokenAddress cfg) fromAddress <> 0 ->
  (JS.truthy (UsdcService.mnemonic env) = false ->
   fst run = Throw (Error "USDC_MNEMONIC not configured") /\
   UsdcService.ledger (snd run) = UsdcService.ledger st) /\
  (JS.truthy (UsdcService.mnemonic env) = true ->
   (forall i, (i < 10)%nat ->
      hd_derivePath client (UsdcService.mnemonic env) (UsdcService.derivationPath i)
        = Return (addr i)) ->
   (forall j, (j < 10)%nat -> JS.toLowerCase (addr j) <> JS.toLowerCase fromAddress) ->
   fst run = Throw (Error "Mnemonic does not derive the expected wallet address") /\
   UsdcService.ledger (snd run) = UsdcService.ledger st).
Proof.
  intros cfg run Hc Hb.
  destruct (getTokenBalance_run chain fromAddress st Hc) as (st1 & E1 & L1 & C1).
  assert (forall e,
             fst (UsdcService.resolveSignerForAddress client env chain fromAddress st1)
             = Throw e ->
             fst run = Throw e /\ UsdcService.ledger (snd run) = UsdcService.ledger st)
    as Hfail.
  { intros e He. unfold run, UsdcService.sweepToPayout.
    rewrite (bind_run _ _ _ _ _ E1). fold cfg.
    destruct (Z.eqb_spec (rpc_tokenBalanceOf client (UsdcService.ledger st) chain
                            (UsdcService.tokenAddress cfg) fromAddress) 0);
      [contradiction |].
    pose proof (ledger_resolveSignerForAddress chain fromAddress st1) as Hl.
    destruct (UsdcService.resolveSignerForAddress client env chain fromAddress st1)
      as [r st2] eqn:E2. cbn [fst snd] in *. subst r.
    rewrite (bind_fail _ _ _ _ _ E2). cbn [fst snd].
    split; [reflexivity | congruence]. }
  split.
  - intros Hm. apply Hfail.
    now rewrite (resolve_unset chain fromAddress st1 Hm).
  - intros Hm Hd Hnone. apply Hfail.
    unfold UsdcService.resolveSignerForAddress.
    apply (resolveLoop_miss client env chain _ addr); auto.
    intros j Hj. split; [apply Hd | apply Hnone]; lia.
Qed.


End KeysAndSettlement.

(** * Further properties of the validators *)

Section ValidatorEdges.

Context {Ledger : Type} (client : ChainClient Ledger) (env : Env).

Let UState : Type := UsdcService.State (Ledger := Ledger).
Let EState : Type := EthService.State (Ledger := Ledger).

Lemma settle_passes (l : Ledger) (params : ValidationParams)
    (receipt : TransactionReceipt) (v : Z) (from to : string) :
  v = p_expectedAmount params ->
  1 <= confirmationsOf (rpc_getBlockNumber client l (p_chain params)) receipt ->
  settle client l params receipt v from to =
    {| ok := true; reason := None; txHash := Some (p_txHash params);
       confirmations :=
         Some (confirmationsOf (rpc_getBlockNumber client l (p_chain params)) receipt);
       amount := Some v; sender := Some from; recipient := Some to |}.
Proof.
  intros Hv Hc. unfold settle. rewrite Hv, Z.eqb_refl. cbn [negb].
  destruct (Z.ltb_spec (confirmationsOf (rpc_getBlockNumber client l (p_chain params))
                          receipt) 1); [lia | reflexivity].
Qed.

(** X13: the native validator succeeds exactly when the transaction is
    mined with a successful receipt, its destination is the deposit wallet
    and is not blocked, its sender is the expected one (both up to case),
    its value is the expected amount, and the head is not behind the
    receipt's block. *)
Theorem native_validation_success_iff (params : ValidationParams) (se : EState) :
  let l := EthService.ledger se in
  let cfg := EthService.getChainConfig env (p_chain params) in
  (exists r,
     fst (EthService.validateIncomingTransfer client env params se) = Return r /\
     ok r = true)
  <->
  (exists receipt tx,
     rpc_waitForTransaction client l (p_chain params) (p_txHash params) = Some receipt /\
     rc_status receipt = Some 1 /\
     rpc_getTransaction client l (p_chain params) (p_txHash params) = Some tx /\
     EthService.isBlockedAddress env (ethRecipient tx) = false /\
     ethRecipient tx = EthService.depositWallet cfg /\
     ethSender tx = JS.toLowerCase (p_expectedSender params) /\
     ethValue tx = p_expectedAmount params /\
     match rc_blockNumber receipt with
     | Some b => b <= rpc_getBlockNumber client l (p_chain params)
     | None => True
     end).
Proof.
  intros l cfg. rewrite eth_validate_outcome. fold l. split.
  - intros (r & Hr & Hok).
    destruct (ethOutcome_settled client env l params r Hr (or_introl Hok))
      as (rc & tx & Hrc & Hs & Htx & Hb & Hto & Hfrom & ->).
    destruct (settle_success _ _ _ _ _ _ _ Hok) as (Hv & Hc & _).
    exists rc, tx. apply succeeded_iff in Hs.
    repeat (split; [assumption |]).
    unfold confirmationsOf in Hc. destruct (rc_blockNumber rc); [lia | exact I].
  - intros (rc & tx & Hrc & Hs & Htx & Hb & Hto & Hfrom & Hv & Hc).
    apply succeeded_iff in Hs. unfold ethOutcome.
    rewrite Hrc, Hs, Htx, Hb. fold cfg. rewrite Hto, Hfrom, !String.eqb_refl.
    cbn [negb]. rewrite settle_passes.
    + eexists. split; [reflexivity | reflexivity].
    + exact Hv.
    + unfold confirmationsOf. destruct (rc_blockNumber rc); lia.
Qed.

(** *** Validation reads the networks and changes nothing on them *)






(** *** What the token validator matches *)

Lemma scanLogs_sound (cfg : UsdcService.UsdcConfig) (expectedSender : string)
    (logs : list Log) (m : UsdcService.Matched) :
  UsdcService.scanLogs client cfg expectedSender logs = Some m ->
  UsdcService.m_to m = UsdcService.depositWallet cfg /\
  UsdcService.m_from m = JS.toLowerCase expectedSender /\
  exists log parsed,
    In log logs /\
    JS.toLowerCase (log_address log) = JS.toLowerCase (UsdcService.tokenAddress cfg) /\
    abi_parseLog client log = Return (Some parsed) /\
    ld_name parsed = "Transfer" /\
    UsdcService.m_from m = JS.toLowerCase (ld_arg0 parsed) /\
    UsdcService.m_to m = JS.toLowerCase (ld_arg1 parsed) /\
    UsdcService.m_value m = ld_arg2 parsed.
Proof.
  induction logs as [|log rest IH]; [discriminate |].
  cbn [UsdcService.scanLogs].
  assert (UsdcService.scanLogs client cfg expectedSender rest = Some m ->
          UsdcService.m_to m = UsdcService.depositWallet cfg /\
          UsdcService.m_from m = JS.toLowerCase expectedSender /\
          exists log0 parsed,
            In log0 (log :: rest) /\
            JS.toLowerCase (log_address log0)
              = JS.toLowerCase (UsdcService.tokenAddress cfg) /\
            abi_parseLog client log0 = Return (Some parsed) /\
            ld_name parsed = "Transfer" /\
            UsdcService.m_from m = JS.toLowerCase (ld_arg0 parsed) /\
            UsdcService.m_to m = JS.toLowerCase (ld_arg1 parsed) /\
            UsdcService.m_value m = ld_arg2 parsed) as Hrest.
  { intros H. destruct (IH H) as (H1 & H2 & l0 & pd & Hin & Hrest). 
    split; [exact H1 | split; [exact H2 |]]. exists l0, pd. split; [now right | exact Hrest]. }
  destruct (negb (JS.truthy (log_address log))); [exact Hrest |].
  destruct (String.eqb_spec (JS.toLowerCase (log_address log))
              (JS.toLowerCase (UsdcService.tokenAddress cfg))) as [Haddr | _];
    cbn [negb orb]; [| exact Hrest].
  destruct (abi_parseLog client log) as [[parsed|]|e] eqn:Hp; try exact Hrest.
  destruct (String.eqb_spec (ld_name parsed) "Transfer") as [Hn | _]; [| exact Hrest].
  rewrite BigInt_bigintToString.
  destruct (String.eqb_spec (JS.toLowerCase (ld_arg1 parsed)) (UsdcService.depositWallet cfg))
    as [Hto | _]; cbn [andb]; [| exact Hrest].
  destruct (String.eqb_spec (JS.toLowerCase (ld_arg0 parsed)) (JS.toLowerCase expectedSender))
    as [Hfrom | _]; [| exact Hrest].
  intros [= <-]. cbn [UsdcService.m_to UsdcService.m_from UsdcService.m_value].
  split; [exact Hto | split; [exact Hfrom |]].
  exists log, parsed. repeat split; auto. now left.
Qed.

Lemma decodeTransferInput_sound (chain : SupportedChain) (expectedSender : string)
    (tx : option TransactionResponse) (m : UsdcService.Matched) :
  let cfg := UsdcService.getChainConfig env chain in
  UsdcService.decodeTransferInput cfg expectedSender tx = Return (Some m) ->
  UsdcService.m_to m = UsdcService.depositWallet cfg /\
  UsdcService.m_from m = JS.toLowerCase expectedSender.
Proof.
  intros cfg. unfold UsdcService.decodeTransferInput.
  destruct tx as [tx|]; [| discriminate].
  destruct (tx_to tx) as [to|]; [| discriminate].
  destruct (_ && _ && _); [| discriminate].
  destruct (JS.BigInt _) as [val|e]; [| discriminate]. cbn [bindRes].
  destruct (String.eqb_spec (JS.toLowerCase (JS.orElse (tx_from tx) ""))
              (JS.toLowerCase expectedSender)) as [Hfrom | _]; [| discriminate].
  cbn [andb]. destruct (String.eqb _ _); [| discriminate].
  intros [= <-]. cbn [UsdcService.m_to UsdcService.m_from].
  split; [| exact Hfrom].
  unfold cfg. destruct chain; apply toLowerCase_idem.
Qed.

(** X15: a successful token validation names the expected sender (in
    lower case) and the deposit wallet as the parties of the transfer,
    carries the transaction hash and no failure reason. *)
Theorem validated_token_transfer_parties (params : ValidationParams) (su : UState)
    (r : ValidationResult) :
  fst (UsdcService.validateIncomingTransfer client env params su) = Return r ->
  ok r = true ->
  sender r = Some (JS.toLowerCase (p_expectedSender params)) /\
  recipient r = Some (JS.toLowerCase (DEPOSIT_WALLET_ADDRESS env)) /\
  txHash r = Some (p_txHash params) /\
  reason r = None.
Proof.
  intros Hr Hok. rewrite usdc_validate_outcome in Hr.
  destruct (usdcOutcome_settled client env _ params r Hr (or_introl Hok))
    as (rc & m & _ & _ & Hm & ->).
  destruct (settle_success _ _ _ _ _ _ _ Hok) as (_ & _ & ->).
  cbn [sender recipient txHash reason].
  assert (UsdcService.m_to m
          = UsdcService.depositWallet (UsdcService.getChainConfig env (p_chain params)) /\
          UsdcService.m_from m = JS.toLowerCase (p_expectedSender params)) as [Hto Hfrom].
  { unfold usdcMatch in Hm.
    destruct (UsdcService.scanLogs client _ _ _) as [m'|] eqn:Hs.
    - injection Hm as <-. destruct (scanLogs_sound _ _ _ _ Hs) as (H1 & H2 & _). auto.
    - now apply (decodeTransferInput_sound _ _ _ _ Hm). }
  rewrite Hto, Hfrom. repeat split. now destruct (p_chain params).
Qed.


(** *** Scanning the logs *)

Lemma scanLogs_app (cfg : UsdcService.UsdcConfig) (expectedSender : string)
    (l1 l2 : list Log) :
  UsdcService.scanLogs client cfg expectedSender (l1 ++ l2)
  = match UsdcService.scanLogs client cfg expectedSender l1 with
    | Some m => Some m
    | None => UsdcService.scanLogs client cfg expectedSender l2
    end.
Proof.
  induction l1 as [|log rest IH]; [reflexivity |].
  cbn [app UsdcService.scanLogs].
  destruct (_ || _); [exact IH |].
  destruct (abi_parseLog client log) as [[parsed|]|e]; try exact IH.
  destruct (String.eqb _ "Transfer"); [| exact IH].
  destruct (JS.BigInt _); [| exact IH].
  destruct (_ && _); [reflexivity | exact IH].
Qed.

(** X17: the log scan takes the first matching log in emission order:
    scanning a list of logs followed by another gives the match of the first
    list when it has one and otherwise that of the second; logs emitted by
    any other contract than the configured token are passed over, whatever
    they hold. *)
Theorem log_scan_first_match_wins (cfg : UsdcService.UsdcConfig)
    (expectedSender : string) (l1 l2 : list Log) :
  UsdcService.scanLogs client cfg expectedSender (l1 ++ l2)
  = match UsdcService.scanLogs client cfg expectedSender l1 with
    | Some m => Some m
    | None => UsdcService.scanLogs client cfg expectedSender l2
    end /\
  ((forall log, In log l1 ->
      JS.toLowerCase (log_address log) <> JS.toLowerCase (UsdcService.tokenAddress cfg)) ->
   UsdcService.scanLogs client cfg expectedSender (l1 ++ l2)
   = UsdcService.scanLogs client cfg expectedSender l2).
Proof.
  split; [apply scanLogs_app |].
  intros Hother. rewrite scanLogs_app.
  assert (UsdcService.scanLogs client cfg expectedSender l1 = None) as ->; [| reflexivity].
  induction l1 as [|log rest IH]; [reflexivity |].
  cbn [UsdcService.scanLogs].
  destruct (String.eqb_spec (JS.toLowerCase (log_address log))
              (JS.toLowerCase (UsdcService.tokenAddress cfg))) as [Heq | _].
  - exfalso. apply (Hother log); [now left | exact Heq].
  - cbn [negb]. rewrite orb_true_r. apply IH. intros l Hin. apply Hother. now right.
Qed.

(** *** The blocked-address list and address syntax *)

(** X18: an address is blocked exactly when it is not empty and equals,
    up to case, some entry of the comma-separated list after the entry is
    trimmed; so the test ignores the case of its argument, and empty
    entries block nothing. *)
Theorem blocked_address_iff (a : string) :
  (EthService.isBlockedAddress env a = true <->
   JS.truthy a = true /\
   exists entry,
     In entry (JS.split "," (BLOCKED_ETH_ADDRESSES env)) /\
     JS.toLowerCase (JS.trim entry) = JS.toLowerCase a) /\
  EthService.isBlockedAddress env (JS.toLowerCase a) = EthService.isBlockedAddress env a /\
  EthService.isBlockedAddress env "" = false.
Proof.
  assert (forall b, EthService.isBlockedAddress env b = true <->
                    JS.truthy b = true /\
                    exists entry,
                      In entry (JS.split "," (BLOCKED_ETH_ADDRESSES env)) /\
                      JS.toLowerCase (JS.trim entry) = JS.toLowerCase b) as Hiff.
  { intros b. unfold EthService.isBlockedAddress, EthService.blockedList.
    rewrite orElse_empty, existsb_exists. split.
    - intros (x & Hin & Heq). apply String.eqb_eq in Heq. subst x.
      apply filter_In in Hin as [Hin Ht]. rewrite truthy_toLowerCase in Ht.
      apply in_map_iff in Hin as (entry & He & Hin). eauto.
    - intros (Ht & entry & Hin & He). exists (JS.toLowerCase b).
      split; [| apply String.eqb_refl].
      apply filter_In. split; [| now rewrite truthy_toLowerCase].
      rewrite <- He. now apply (in_map (fun s => JS.toLowerCase (JS.trim s))). }
  split; [apply Hiff | split].
  - destruct (EthService.isBlockedAddress env a) eqn:Ea.
    + apply Hiff. apply Hiff in Ea as (Ht & entry & Hin & He).
      rewrite truthy_toLowerCase, toLowerCase_idem. eauto.
    + destruct (EthService.isBlockedAddress env (JS.toLowerCase a)) eqn:El; [| reflexivity].
      apply Hiff in El as (Ht & entry & Hin & He).
      rewrite truthy_toLowerCase in Ht. rewrite toLowerCase_idem in He.
      assert (EthService.isBlockedAddress env a = true) by (apply Hiff; eauto).
      congruence.
  - destruct (EthService.isBlockedAddress env "") eqn:E; [| reflexivity].
    apply Hiff in E as [Ht _]. discriminate Ht.
Qed.

End ValidatorEdges.

Section AddressSyntax.

Lemma isHexChar_digit (c : ascii) : EthService.isHexChar c = isDigitOf 16 c.
Proof. destruct c as [[] [] [] [] [] [] [] []]; reflexivity. Qed.

Lemma isHexChar_lower (c : ascii) :
  EthService.isHexChar (JS.lowerChar c) = EthService.isHexChar c.
Proof. destruct c as [[] [] [] [] [] [] [] []]; reflexivity. Qed.

Lemma hexChars_isHex (s : string) : EthService.hexChars s = isHex s.
Proof.
  induction s as [|c s IH]; [reflexivity |].
  cbn [EthService.hexChars]. unfold isHex in *. cbn [allChars].
  now rewrite IH, isHexChar_digit.
Qed.

Lemma hexChars_lower (s : string) :
  EthService.hexChars (JS.toLowerCase s) = EthService.hexChars s.
Proof.
  induction s as [|c s IH]; [reflexivity |].
  cbn [JS.toLowerCase EthService.hexChars]. now rewrite IH, isHexChar_lower.
Qed.

(** X19: an address accepted by [validateEthAddress] has 42 characters,
    stays accepted when put in lower case, and is a hexadecimal literal
    that [BigInt] reads as a number below 2^160. *)
Theorem valid_address_shape (address : string) :
  EthService.validateEthAddress address = true ->
  String.length address = 42%nat /\
  EthService.validateEthAddress (JS.toLowerCase address) = true /\
  exists v, JS.BigInt address = Return v /\ 0 <= v < 2 ^ 160.
Proof.
  unfold EthService.validateEthAddress.
  destruct address as [|a [|b rest]]; try discriminate.
  intros H. apply andb_true_iff in H as [H Hhex].
  apply andb_true_iff in H as [H Hlen]. apply andb_true_iff in H as [Ha Hb].
  apply Ascii.eqb_eq in Ha. apply Ascii.eqb_eq in Hb. subst a b.
  apply Nat.eqb_eq in Hlen.
  split; [cbn; now rewrite Hlen | split].
  - cbn [JS.toLowerCase]. change (JS.lowerChar "0") with "0"%char.
    change (JS.lowerChar "x") with "x"%char.
    rewrite toLowerCase_length, Hlen, hexChars_lower, Hhex. reflexivity.
  - rewrite hexChars_isHex in Hhex. exists (hexValue rest). split.
    + apply (BigInt_hex rest Hhex). destruct rest; [discriminate | reflexivity].
    + pose proof (horner_bounds 16 rest ltac:(lia) Hhex) as Hb.
      unfold len in Hb. rewrite Hlen in Hb. exact Hb.
Qed.

Lemma valid_address_shape_witness :
  EthService.validateEthAddress deposit = true /\ String.length deposit = 42%nat.
Proof.
  split; [reflexivity |]. apply (valid_address_shape deposit). reflexivity.
Defined.

End AddressSyntax.

(** * The expected amount of a native-asset purchase *)

Section ExpectedWei.

(** X20: for a non-negative total and a positive price, the expected
    amount in wei is the total converted at that price and rounded up: it
    is never worth less than the total and exceeds it by less than one wei;
    it is zero only for a zero total.  A zero price yields no amount. *)
Theorem expected_wei_rounds_up (usdScaled priceScaled : Z) :
  0 <= usdScaled -> 0 < priceScaled ->
  (exists w,
     CryptoRoutes.expectedWei usdScaled priceScaled = Some w /\
     usdScaled * 10 ^ 18 <= w * priceScaled < usdScaled * 10 ^ 18 + priceScaled /\
     (w = 0 <-> usdScaled = 0)) /\
  CryptoRoutes.expectedWei usdScaled 0 = None.
Proof.
  intros Hu Hp. split; [| reflexivity].
  unfold CryptoRoutes.expectedWei. cbv zeta.
  change (10 ^ 18) with 1000000000000000000.
  destruct (Z.eqb_spec priceScaled 0) as [H0 | _]; [lia |].
  set (n := usdScaled * 1000000000000000000).
  assert (0 <= n) as Hn by (unfold n; lia).
  rewrite Z.quot_div_nonneg by lia.
  eexists. split; [reflexivity |].
  pose proof (Z.div_mod (n + priceScaled - 1) priceScaled ltac:(lia)) as Hdm.
  pose proof (Z.mod_pos_bound (n + priceScaled - 1) priceScaled Hp) as Hm.
  set (q := (n + priceScaled - 1) / priceScaled) in *.
  split; [nia |]. split.
  - intros Hq. rewrite Hq in Hdm. unfold n in *. lia.
  - intros Hz. unfold q, n. rewrite Hz, Z.mul_0_l. apply Z.div_small. lia.
Qed.

Lemma expected_wei_rounds_up_witness :
  0 <= 2000000 /\ 0 < 3000000000 /\
  exists w,
    CryptoRoutes.expectedWei 2000000 3000000000 = Some w /\
    2000000 * 10 ^ 18 <= w * 3000000000 < 2000000 * 10 ^ 18 + 3000000000.
Proof.
  split; [lia | split; [lia |]].
  destruct (proj1 (expected_wei_rounds_up 2000000 3000000000 ltac:(lia) ltac:(lia)))
    as (w & Hw & Hb & _).
  exists w. split; [exact Hw | exact Hb].
Defined.

End ExpectedWei.

(** * Countdowns *)

Section Countdowns.

Import DateCalculations.

Lemma countdown_fields (diff : Z) :
  0 < diff ->
  let d := diff / (1000 * 60 * 60 * 24) in
  let h := Z.rem diff (1000 * 60 * 60 * 24) / (1000 * 60 * 60) in
  let m := Z.rem diff (1000 * 60 * 60) / (1000 * 60) in
  let s := Z.rem diff (1000 * 60) / 1000 in
  0 <= d /\ 0 <= h < 24 /\ 0 <= m < 60 /\ 0 <= s < 60 /\
  exists ms, 0 <= ms < 1000 /\
    diff = (((d * 24 + h) * 60 + m) * 60 + s) * 1000 + ms.
Proof.
  intros Hd. cbv zeta.
  rewrite !Z.rem_mod_nonneg by lia.
  change (1000 * 60 * 60 * 24) with 86400000.
  change (1000 * 60 * 60) with 3600000. change (1000 * 60) with 60000.
  repeat split; try (Z.div_mod_to_equations; lia).
  exists (diff mod 1000). Z.div_mod_to_equations. lia.
Qed.

(** X21: a countdown to a moment in the future splits the remaining time
    into whole days, hours below 24, minutes and seconds below 60, which
    together with less than a second make up the remaining milliseconds; a
    moment that is not in the future gives all zeros.  The countdown of the
    drawing service is the same computation on its scheduled time, and all
    zeros when nothing is scheduled. *)
Theorem countdown_decomposes (targetDate now : Z) (Lottery : Type)
    (st : AutoDrawingService.State (Lottery := Lottery)) :
  let c := getTimeUntilDate targetDate now in
  AutoDrawingService.getTimeUntilNextDrawing now st
  = match AutoDrawingService.nextScheduledTime (AutoDrawingService.config st) with
    | Some next => getTimeUntilDate next now
    | None => {| days := 0; hours := 0; minutes := 0; seconds := 0; totalMs := 0 |}
    end /\
  (targetDate <= now ->
   c = {| days := 0; hours := 0; minutes := 0; seconds := 0; totalMs := 0 |}) /\
  (now < targetDate ->
   totalMs c = targetDate - now /\
   0 <= days c /\ 0 <= hours c < 24 /\ 0 <= minutes c < 60 /\ 0 <= seconds c < 60 /\
   exists ms, 0 <= ms < 1000 /\
     totalMs c
     = (((days c * 24 + hours c) * 60 + minutes c) * 60 + seconds c) * 1000 + ms).
Proof.
  cbv zeta. split.
  { unfold AutoDrawingService.getTimeUntilNextDrawing, getTimeUntilDate.
    now destruct (AutoDrawingService.nextScheduledTime _). }
  unfold getTimeUntilDate. split; intros H.
  - destruct (Z.leb_spec (targetDate - now) 0); [reflexivity | lia].
  - destruct (Z.leb_spec (targetDate - now) 0); [lia |].
    cbn [days hours minutes seconds totalMs].
    split; [reflexivity |]. now apply countdown_fields.
Qed.

End Countdowns.

(** * The drawing scheduler *)

Section Scheduler.

Import DateCalculations.

Context {Lottery : Type}
        (getCurrentDrawing : Lottery -> bool)
        (performIntelligentDrawing : Lottery -> Lottery)
        (getGlobalDisplayOverrides : Lottery -> option DisplayOverrides)
        (getDay : string -> option Z)
        (getNextDrawingDate : DrawingSchedule -> Z -> Z).

Let AState : Type := AutoDrawingService.State (Lottery := Lottery).









(** X23: a firing of the interval performs a drawing exactly when
    auto-drawing is enabled and the scheduled time has come, and then
    reschedules; it never starts or stops an interval and never switches
    auto-drawing.  A manual trigger performs a drawing exactly when a
    current drawing exists and leaves the schedule and the timers as they
    are. *)
Theorem drawings_happen_when_due (now : Z) (st : AState) :
  let fired := AutoDrawingService.checkForScheduledDrawing performIntelligentDrawing
                 getGlobalDisplayOverrides getDay getNextDrawingDate now st in
  let manual := AutoDrawingService.triggerManualDrawing getCurrentDrawing
                  performIntelligentDrawing st in
  let due :=
    AutoDrawingService.enabled (AutoDrawingService.config st)
    && match AutoDrawingService.nextScheduledTime (AutoDrawingService.config st) with
       | Some next => next <=? now
       | None => false
       end in
  AutoDrawingService.lottery fired
    = (if due then performIntelligentDrawing (AutoDrawingService.lottery st)
       else AutoDrawingService.lottery st) /\
  (due = false -> fired = st) /\
  AutoDrawingService.timers fired = AutoDrawingService.timers st /\
  AutoDrawingService.intervalId fired = AutoDrawingService.intervalId st /\
  AutoDrawingService.enabled (AutoDrawingService.config fired)
    = AutoDrawingService.enabled (AutoDrawingService.config st) /\
  fst manual = getCurrentDrawing (AutoDrawingService.lottery st) /\
  AutoDrawingService.lottery (snd manual)
    = (if getCurrentDrawing (AutoDrawingService.lottery st)
       then performIntelligentDrawing (AutoDrawingService.lottery st)
       else AutoDrawingService.lottery st) /\
  AutoDrawingService.config (snd manual) = AutoDrawingService.config st /\
  AutoDrawingService.timers (snd manual) = AutoDrawingService.timers st.
Proof.
  cbv zeta. unfold AutoDrawingService.checkForScheduledDrawing,
    AutoDrawingService.triggerManualDrawing.
  destruct (getCurrentDrawing (AutoDrawingService.lottery st));
    destruct (AutoDrawingService.nextScheduledTime (AutoDrawingService.config st))
      as [next|];
    destruct (AutoDrawingService.enabled (AutoDrawingService.config st)) eqn:Een;
    cbn; try (destruct (next <=? now)); cbn; repeat split; auto; try discriminate.
Qed.

(** *** The scheduled hour *)


Lemma digitPrefix_decimal (s rest : string) (c : ascii) :
  isDecimal s = true -> isDigitOf 10 c = false ->
  JS.digitPrefix 10 (s ++ String c rest) = s.
Proof.
  intros Hs Hc. induction s as [|x s IH]; cbn [append JS.digitPrefix].
  - unfold isDigitOf in Hc. destruct (JS.digitVal c) as [d|]; [now rewrite Hc | reflexivity].
  - unfold isDecimal in Hs. cbn [allChars] in Hs. apply andb_true_iff in Hs as [Hx Hs].
    unfold isDigitOf in Hx. destruct (JS.digitVal x) as [d|]; [| discriminate].
    rewrite Hx. now rewrite (IH Hs).
Qed.




End Scheduler.

(** * Concrete runs of the further properties *)

Lemma unset_seed_phrase_blocks_signing_witness :
  JS.truthy (UsdcService.mnemonic envNoSeed) = false /\
  UsdcService.payout (payoutClient 7) envNoSeed OpSepolia alice 5 usdc0
  = (Throw (Error "USDC_MNEMONIC not configured"), usdc0).
Proof.
  split; [reflexivity |].
  apply (unset_seed_phrase_blocks_signing (payoutClient 7) envNoSeed OpSepolia
           alice alice 5 0 usdc0 eq_refl).
Defined.



Lemma sweep_without_signer_sends_nothing_witness :
  fst (UsdcService.sweepToPayout (payoutClient 7) envNoSeed OpSepolia deposit usdc0)
    = Throw (Error "USDC_MNEMONIC not configured") /\
  UsdcService.ledger
    (snd (UsdcService.sweepToPayout (payoutClient 7) envNoSeed OpSepolia deposit usdc0))
    = [].
Proof.
  apply (proj1 (sweep_without_signer_sends_nothing (payoutClient 7) envNoSeed OpSepolia
                  deposit derived usdc0
                  (cacheConsistent_empty envNoSeed [] (fun _ => None))
                  ltac:(cbn; discriminate))).
  reflexivity.
Defined.


Lemma validated_token_transfer_parties_witness :
  sender {| ok := true; reason := None; txHash := Some "0xh";
            confirmations := Some 1; amount := Some 1000000;
            sender := Some alice; recipient := Some deposit |}
  = Some (JS.toLowerCase (p_expectedSender (params0 1000000))).
Proof.
  apply (validated_token_transfer_parties tokenClient env1 (params0 1000000) usdc0
           {| ok := true; reason := None; txHash := Some "0xh";
              confirmations := Some 1; amount := Some 1000000;
              sender := Some alice; recipient := Some deposit |}
           eq_refl eq_refl).
Defined.


(** The examples behind the further properties. *)

Example exponent_cut_off_is_accepted :
  toUnit6 "1.2345678e-7" = Return 1234567 /\
  toUnit6 "1.5e-7" = Throw (SyntaxError "5e-700") /\
  toWei "1e-7" = Throw (SyntaxError "1e-7").
Proof. repeat split. Qed.

Example signed_fraction :
  toUnit6 "-1.5" = Return (-500000) /\ fromUnit6 (-1500000) = "-1.-500000".
Proof. split; reflexivity. Qed.

Example manual_schedule_hour :
  AutoDrawingService.hour (AutoDrawingService.config scheduler0) = Some 20 /\
  AutoDrawingService.minute (AutoDrawingService.config scheduler0) = 0 /\
  AutoDrawingService.dayOfWeek (AutoDrawingService.config scheduler0) = Some 6 /\
  AutoDrawingService.nextScheduledTime (AutoDrawingService.config scheduler0) = Some 60000.
Proof. repeat split. Qed.

Example enabling_twice_keeps_one_timer :
  AutoDrawingService.timers
    (AutoDrawingService.run (fun _ => true) S (fun _ => manualOverrides) (fun _ => Some 6)
       (fun _ now => now + 60000)
       [(AutoDrawingService.SetAutoDrawingEnabled true, 10);
        (AutoDrawingService.SetAutoDrawingEnabled true, 20)]
       scheduler0)
  = [1%nat].
Proof. reflexivity. Qed.

Example manual_trigger_does_not_reschedule :
  let run := AutoDrawingService.run (fun _ => true) S (fun _ => manualOverrides)
               (fun _ => Some 6) (fun _ now => now + 60000) in
  AutoDrawingService.lottery
    (run [(AutoDrawingService.SetAutoDrawingEnabled true, 10);
          (AutoDrawingService.TriggerManualDrawing, 60010);
          (AutoDrawingService.IntervalFires, 60011)] scheduler0)
  = 2%nat.
Proof. reflexivity. Qed.
